(** * Tiny FOB v2: a shallow embedding of [index.js]

    [index.js] holds two variants of the same Express application: the
    first one (an ES module, lines 1-104) and the hardened one (CommonJS,
    lines 105-337).  The hardened variant is embedded in full; of the first
    variant the parts that the properties below refer to (start-up with its
    pool, [adminOK], [/status] and [/admin/last]) live in [Module V1].

    Modelling choices.
    - A JavaScript string is a sequence of UTF-16 code units.  The model has
      the strings whose code units are all below U+0100, as [string]s of
      8-bit characters, a character standing for the code unit of its
      number.  On these strings [toLowerCase], [trim], [split],
      [startsWith], [slice] and Postgres's [left] below are the operations
      of JavaScript and Postgres; strings with other code units are outside
      the model, and the literals of the source that begin with an emoji
      are written without it.
    - A value that may be [undefined] is an [option]; [a || b] on such values
      is [js_or].  Headers are strings.  A query parameter is a [QValue]: a
      string, or the array or object that Express builds for a repeated or
      bracketed parameter.
    - A computation that may throw returns a [completion].
    - A request handler is a function in the monad [M]: it reads and writes
      the process state [World] and emits the calls it makes on the response
      object, the console, the counter and the connection pool as a list of
      [action]s, in program order.  [await pool.query(..)] emits [Awaited]
      at the point where the handler resumes, with the time the query took
      to settle.  An exception that leaves a handler is the [result] of
      its run; what Express and Node do with it is outside the model.
    - The table [clicks] is part of [World]; each statement the code sends
      is a function on the table.  Whether the store answers, and how fast,
      is decided from outside, request by request and, at start-up,
      statement by statement ([Ctx]).
    - Express's router is [dispatch]: layers in the order of registration,
      paths matched segment by segment.
    - Library code (the WHATWG URL parser, Postgres casts, node-postgres's
      text for a parameter that is no string, json2csv, prom-client's
      exposition format, helmet, Express's parameter decoding, the key
      generator of express-rate-limit) is the interface [Platform].
    - Left out: the signal handlers of l.189-199, the [OPTIONS] method, and
      the pool's own [error] event. *)

From stdpp Require Import gmap strings list sorting pretty.
From Stdlib Require Import Ascii Sorting.Sorted Sorting.Permutation.

Local Open Scope string_scope.
Local Open Scope nat_scope.
Local Open Scope list_scope.

(** ** JavaScript values *)

(** The outcome of evaluating an expression or awaiting a promise: a value,
    or an exception carrying [e.message]. *)
Inductive completion (A : Type) : Type :=
| Normal (a : A)
| Throw (message : string).
Arguments Normal {A} a.
Arguments Throw {A} message.

(** [o || d] where [o] is a string or [undefined]: the empty string is falsy. *)
Definition js_or (o : option string) (d : string) : string :=
  match o with
  | Some s => if decide (s = "") then d else s
  | None => d
  end.

(** [o1 || o2] where both sides may be [undefined]. *)
Definition js_or_undef (o1 o2 : option string) : option string :=
  match o1 with
  | Some s => if decide (s = "") then o2 else Some s
  | None => o2
  end.

(** [toLowerCase] on one code unit below U+0100: the letters A-Z and the
    capitals U+00C0-U+00DE, of which U+00D7 is the multiplication sign and
    stays. *)
Definition lower_char (c : ascii) : ascii :=
  let n := nat_of_ascii c in
  if ((65 <=? n) && (n <=? 90))
     || ((192 <=? n) && (n <=? 222) && negb (n =? 215))
  then ascii_of_nat (n + 32) else c.

Fixpoint toLowerCase (s : string) : string :=
  match s with
  | EmptyString => EmptyString
  | String c r => String (lower_char c) (toLowerCase r)
  end.

(** The white space and line terminators of ECMAScript below U+0100, which
    [trim] strips: TAB, LF, VT, FF, CR, SP and NBSP (U+00A0). *)
Definition is_js_space (c : ascii) : bool :=
  let n := nat_of_ascii c in
  ((9 <=? n) && (n <=? 13)) || (n =? 32) || (n =? 160).

Fixpoint trimStart (s : string) : string :=
  match s with
  | EmptyString => EmptyString
  | String c r => if is_js_space c then trimStart r else s
  end.

Definition trimEnd (s : string) : string :=
  String.rev (trimStart (String.rev s)).

Definition trim (s : string) : string := trimEnd (trimStart s).

(** [s.split(sep)] for a separator of one character. *)
Fixpoint split (sep : ascii) (s : string) : list string :=
  match s with
  | EmptyString => [EmptyString]
  | String c r =>
      if decide (c = sep) then EmptyString :: split sep r
      else match split sep r with
           | h :: t => String c h :: t
           | [] => [String c EmptyString]
           end
  end.

(** [a.includes(x)] *)
Definition includes (a : list string) (x : string) : bool :=
  bool_decide (x ∈ a).

(** [s.startsWith(p)] *)
Definition startsWith (s p : string) : bool := String.prefix p s.

(** [s.slice(0, n)] *)
Definition slice0 (n : nat) (s : string) : string := String.substring 0 n s.

(** ** Query values *)

#[local] Set Warnings "-register-all".

(** A value of [req.query]. Express's query parser gives a string for a
    parameter written once, an array for a parameter written more than
    once ([?day=a&day=b]) and an object for a bracketed one ([?day[x]=a]);
    arrays and objects nest. *)
Inductive QValue : Type :=
| QStr (s : string)
| QArr (items : list QValue)
| QObj (fields : list (string * QValue)).

(** [o || d] on a query value that may be [undefined]: only the empty
    string is falsy, arrays and objects are truthy. *)
Definition js_or_value (o : option QValue) (d : QValue) : QValue :=
  match o with
  | Some (QStr s) => if decide (s = "") then d else QStr s
  | Some v => v
  | None => d
  end.

(** [String(v)], which [new URL(v)] applies to its argument: an array is
    its elements joined by commas; an object is ["[object Object]"], unless
    a field named [toString] hides the method, and then the conversion
    throws a [TypeError]. *)
Fixpoint ToString (v : QValue) : completion string :=
  match v with
  | QStr s => Normal s
  | QArr items =>
      (fix join (l : list QValue) : completion string :=
         match l with
         | [] => Normal ""
         | x :: r =>
             match ToString x with
             | Throw m => Throw m
             | Normal s =>
                 match r with
                 | [] => Normal s
                 | _ :: _ =>
                     match join r with
                     | Throw m => Throw m
                     | Normal t => Normal (s +:+ "," +:+ t)
                     end
                 end
             end
         end) items
  | QObj fields =>
      if bool_decide ("toString" ∈ fields.*1)
      then Throw "Cannot convert object to primitive value"
      else Normal "[object Object]"
  end.

(** [v.trim()]: a string has the method; on an array or an object the
    property is [undefined] or a query value, and the call throws a
    [TypeError]. *)
Definition trim_method (v : QValue) : completion string :=
  match v with
  | QStr s => Normal (trim s)
  | _ => Throw "(req.query.day || (intermediate value).toISOString(...).slice(...)).trim is not a function"
  end.

(** ** Configuration: [process.env] *)

Record ProcessEnv : Type := {
  FOB_ADMIN_PASS : option string;
  DATABASE_URL_var : option string;
  DEST_HOST_ALLOWLIST_var : option string;
  PORT : option string;
}.

Section Config.
Variable env : ProcessEnv.

(** l.133 *)
Definition ADMIN : string := js_or (FOB_ADMIN_PASS env) "testpass".

(** l.134 *)
Definition DATABASE_URL : string := js_or (DATABASE_URL_var env) "".

(** l.135-138 *)
Definition DEST_HOST_ALLOWLIST : list string :=
  filter (λ s, s ≠ "")
    ((λ s, toLowerCase (trim s)) <$>
       split "," (js_or (DEST_HOST_ALLOWLIST_var env) "")).
End Config.

(** ** Requests *)

(** The request methods; [OPTIONS], which Express answers by itself, is left
    out. *)
Inductive method : Type := GET | POST | HEAD | PUT | DELETE.

Global Instance method_eq_dec : EqDecision method.
Proof. solve_decision. Defined.

(** [headers] is keyed by lower-cased header names, as Node delivers them;
    [query] is [req.query]; [ip] is [req.ip]. *)
Record Request : Type := {
  req_method : method;
  path : string;
  query : gmap string QValue;
  headers : gmap string string;
  ip : option string;
}.

(** [req.get(name)] *)
Definition req_get (req : Request) (name : string) : option string :=
  headers req !! toLowerCase name.

(** l.141-143 *)
Definition adminOK (env : ProcessEnv) (req : Request) : bool :=
  bool_decide (req_get req "x-admin-pass" = Some (ADMIN env)).

(** ** The destination validator *)

(** The two properties of a parsed URL that the code reads. *)
Record URL : Type := { protocol : string; hostname : string }.

(** ** The event store *)

(** A row of the table [clicks]. Times are in milliseconds since the epoch. *)
Record Click : Type := {
  id : nat;
  ts : N;
  slug : string;
  dest : string;
  c_ip : string;
  ua : string;
}.

Global Instance Click_eq_dec : EqDecision Click.
Proof. solve_decision. Defined.

(** A row of [SELECT ts, slug, left(dest, 60) AS dest]. *)
Record LastRow : Type := { l_ts : N; l_slug : string; l_dest : string }.

(** ** Library code *)

Class Platform : Type := {
  (** [new URL(raw)]; throws a [TypeError] when [raw] is not an absolute URL.
      [protocol] comes back lower-cased with its colon. *)
  URL_new : string → completion URL;
  (** Express decodes a route parameter with [decodeURIComponent]. *)
  decode_param : string → completion string;
  (** [new Date(t).toISOString()] *)
  toISOString : N → string;
  (** Postgres [ts::date], in the time zone of the session. *)
  pg_date_of_ts : N → string;
  (** Postgres [$1::date]; the statement fails with Postgres's message
      when the text is not a date. *)
  pg_date_of_text : string → completion string;
  (** The text node-postgres sends for a query parameter that is an array
      or an object. *)
  prepareValue : QValue → string;
  (** [new Parser().parse(rows)] of json2csv. *)
  Parser_parse : list Click → completion string;
  (** [register.metrics()] of prom-client, as far as it depends on
      [clicks_total]. *)
  register_metrics : gmap string nat → string;
  (** The response headers that [helmet(..)] sets. *)
  helmet_headers : list (string * string);
  (** The default key generator of express-rate-limit. *)
  keyGenerator : Request → string;
}.

Section Validator.
Context `{Platform}.
Variable env : ProcessEnv.

(** l.243-252. The [try] block is [isAllowedDest_try]; [catch] turns every
    exception into [false]. [new URL(raw)] converts [raw] to a string
    first, inside the [try]. *)
Definition isAllowedDest_try (raw : QValue) : completion bool :=
  match ToString raw with
  | Throw m => Throw m
  | Normal s =>
      match URL_new s with
      | Throw m => Throw m
      | Normal u =>
          if bool_decide (protocol u ≠ "https:") && bool_decide (protocol u ≠ "http:")
          then Normal false
          else if decide (length (DEST_HOST_ALLOWLIST env) = 0) then Normal true
          else Normal (includes (DEST_HOST_ALLOWLIST env) (toLowerCase (hostname u)))
      end
  end.

Definition isAllowedDest (raw : QValue) : completion bool :=
  match isAllowedDest_try raw with
  | Normal b => Normal b
  | Throw _ => Normal false
  end.

(** l.257: [isAllowedDest(rawDest) ? rawDest : "https://example.com"] *)
Definition resolveDest (rawDest : QValue) : completion QValue :=
  match isAllowedDest rawDest with
  | Normal true => Normal rawDest
  | Normal false => Normal (QStr "https://example.com")
  | Throw m => Throw m
  end.
End Validator.

(** ** Process state *)

(** The mutable state of the process and of its database.
    - [clicks]: the table, rows in insertion order; [clicks_id_seq]: the last
      value handed out by the [SERIAL] sequence of [id];
    - [clicksTotal]: the counter [clicks_total], by label [slug];
    - [killed]: [app.locals.killed], [undefined] until first assigned;
    - [hits]: the rate limiter's store, client key to (window start, count). *)
Record World : Type := {
  clicks : list Click;
  clicks_id_seq : nat;
  clicksTotal : gmap string nat;
  killed : option bool;
  hits : gmap string (N * nat);
}.

Definition set_clicks (f : list Click → list Click) (w : World) : World :=
  {| clicks := f (clicks w); clicks_id_seq := clicks_id_seq w;
     clicksTotal := clicksTotal w; killed := killed w; hits := hits w |}.
Definition set_clicks_id_seq (n : nat) (w : World) : World :=
  {| clicks := clicks w; clicks_id_seq := n;
     clicksTotal := clicksTotal w; killed := killed w; hits := hits w |}.
Definition set_clicksTotal (f : gmap string nat → gmap string nat) (w : World) : World :=
  {| clicks := clicks w; clicks_id_seq := clicks_id_seq w;
     clicksTotal := f (clicksTotal w); killed := killed w; hits := hits w |}.
Definition set_killed (b : option bool) (w : World) : World :=
  {| clicks := clicks w; clicks_id_seq := clicks_id_seq w;
     clicksTotal := clicksTotal w; killed := b; hits := hits w |}.
Definition set_hits (f : gmap string (N * nat) → gmap string (N * nat)) (w : World) : World :=
  {| clicks := clicks w; clicks_id_seq := clicks_id_seq w;
     clicksTotal := clicksTotal w; killed := killed w; hits := f (hits w) |}.

(** The state of a freshly started process over an empty table. *)
Definition initial_world : World :=
  {| clicks := []; clicks_id_seq := 0; clicksTotal := ∅; killed := None; hits := ∅ |}.

(** Truthiness of [app.locals.killed]. *)
Definition is_killed (w : World) : bool :=
  match killed w with Some true => true | _ => false end.

(** What the outside decides while one request is handled: the time, whether
    the store rejects queries (with which message), and how long a query
    takes to settle, in milliseconds. *)
Record Ctx : Type := {
  now : N;
  db_fault : option string;
  db_latency : N;
}.

(** ** Observable calls *)

Inductive Body : Type :=
| Text (s : string)
| JsonStatus (ts : string) (clicks : nat)   (* { ok: true, ts, clicks } *)
| JsonNotOk (error : string)                (* { ok: false, error } *)
| JsonError (error : string)                (* { error } *)
| JsonRows (rows : list LastRow)
| Csv (s : string).

(** The calls a run makes, each with its arguments as the code passes
    them: [Awaited] is the resumption from [await pool.query(sql, ..)];
    [Redirect status url] is [res.redirect(status, url)], and what Express
    makes of a [url] that is no string is Express's; [CounterInc slug] is
    [clicksTotal.inc({ slug }, 1)]. *)
Inductive action : Type :=
| Awaited (sql : string) (latency : N) (rejected : option string)
| ConsoleLog (message : string)
| ConsoleWarn (message : string)
| ConsoleError (label message : string)
| Listen (port : string)
| SetHeader (name value : string)
| Send (status : nat) (body : Body)
| Redirect (status : nat) (url : QValue)
| CounterInc (slug : string).

(** ** The handler monad *)

Record Outcome (A : Type) : Type := {
  acts : list action;
  result : completion A;
  world : World;
}.
Arguments acts {A} _.
Arguments result {A} _.
Arguments world {A} _.

Definition M (A : Type) : Type := World → Outcome A.

Definition ret {A} (a : A) : M A :=
  λ w, {| acts := []; result := Normal a; world := w |}.

(** [o] after the calls [pre]. *)
Definition after_calls {A} (pre : list action) (o : Outcome A) : Outcome A :=
  match o with
  | {| acts := a; result := r; world := w |} =>
      {| acts := pre ++ a; result := r; world := w |}
  end.

Definition bind {A B} (m : M A) (k : A → M B) : M B :=
  λ w, match m w with
       | {| acts := a; result := Normal x; world := w1 |} => after_calls a (k x w1)
       | {| acts := a; result := Throw e; world := w1 |} =>
           {| acts := a; result := Throw e; world := w1 |}
       end.

Definition throw {A} (e : string) : M A :=
  λ w, {| acts := []; result := Throw e; world := w |}.

(** [try { m } catch (e) { h e }] *)
Definition try_catch {A} (m : M A) (h : string → M A) : M A :=
  λ w, match m w with
       | {| acts := a; result := Normal x; world := w1 |} =>
           {| acts := a; result := Normal x; world := w1 |}
       | {| acts := a; result := Throw e; world := w1 |} => after_calls a (h e w1)
       end.

Definition lift {A} (c : completion A) : M A :=
  match c with Normal a => ret a | Throw e => throw e end.

Definition emit (a : action) : M unit :=
  λ w, {| acts := [a]; result := Normal tt; world := w |}.

Definition get : M World :=
  λ w, {| acts := []; result := Normal w; world := w |}.

Definition modify (f : World → World) : M unit :=
  λ w, {| acts := []; result := Normal tt; world := f w |}.

Notation "'let*' x ':=' m 'in' k" := (bind m (λ x, k))
  (at level 10, x name, m at level 100, k at level 200).
Notation "'exec' m 'in' k" := (bind m (λ _, k))
  (at level 10, m at level 100, k at level 200).

(** What a layer of the Express stack does with control: it either called
    [next()] or ended the request. *)
Inductive Flow : Type := Next | Handled.

(** [await pool.query(sql, ..)]: the handler is suspended for [db_latency]
    and resumes with the rows or with the rejection. [run] is the meaning of
    the statement on the table. *)
Definition pool_query {A} (c : Ctx) (sql : string)
    (run : World → completion (A * World)) : M A :=
  λ w, match db_fault c with
       | Some m =>
           {| acts := [Awaited sql (db_latency c) (Some m)]; result := Throw m; world := w |}
       | None =>
           match run w with
           | Normal (a, w') =>
               {| acts := [Awaited sql (db_latency c) None]; result := Normal a; world := w' |}
           | Throw m =>
               {| acts := [Awaited sql (db_latency c) (Some m)]; result := Throw m; world := w |}
           end
       end.

(** ** The statements sent to Postgres *)

Definition id_asc (a b : Click) : Prop := id a ≤ id b.
Definition id_desc (a b : Click) : Prop := id b ≤ id a.

Global Instance id_asc_dec : RelDecision id_asc.
Proof. intros a b. unfold id_asc. apply _. Defined.
Global Instance id_desc_dec : RelDecision id_desc.
Proof. intros a b. unfold id_desc. apply _. Defined.

(** [INSERT INTO clicks (slug, dest, ip, ua) VALUES ($1,$2,$3,$4)]:
    [id] from the sequence, [ts] from [DEFAULT now()]. *)
Definition sql_insert (c : Ctx) (slug dest ip ua : string)
    (w : World) : completion (unit * World) :=
  let n := S (clicks_id_seq w) in
  let row := {| id := n; ts := now c; slug := slug; dest := dest; c_ip := ip; ua := ua |} in
  Normal (tt, set_clicks_id_seq n (set_clicks (λ t, t ++ [row]) w)).

(** The count query of [/status], l.205: the number of rows of [clicks]. *)
Definition sql_count (w : World) : completion (nat * World) :=
  Normal (length (clicks w), w).

(** [left(dest, 60)] *)
Definition left60 (s : string) : string := String.substring 0 60 s.

(** The select list [ts, slug, left(dest, 60) AS dest]. *)
Definition last_row (r : Click) : LastRow :=
  {| l_ts := ts r; l_slug := slug r; l_dest := left60 (dest r) |}.

(** [SELECT ts, slug, left(dest, 60) AS dest FROM clicks ORDER BY id DESC LIMIT 5] *)
Definition sql_last (w : World) : completion (list LastRow * World) :=
  Normal (last_row <$> take 5 (merge_sort id_desc (clicks w)), w).

(** [SELECT * FROM clicks ORDER BY id DESC LIMIT 1000] *)
Definition sql_export (w : World) : completion (list Click * World) :=
  Normal (take 1000 (merge_sort id_desc (clicks w)), w).

Section App.
Context `{Platform}.
Variable env : ProcessEnv.

(** l.313-316: [SELECT id, ts, ip, ua, slug, dest FROM clicks
    WHERE ts::date = $1::date ORDER BY id] *)
Definition sql_day (day : string) (w : World) : completion (list Click * World) :=
  match pg_date_of_text day with
  | Throw m => Throw m
  | Normal d =>
      Normal (merge_sort id_asc
                (filter (λ r, pg_date_of_ts (ts r) = d) (clicks w)), w)
  end.

(** The text of a value passed as a parameter of a statement. *)
Definition pg_text (v : QValue) : string :=
  match v with
  | QStr s => s
  | _ => prepareValue v
  end.

(** l.156-187: [pool] is [null] unless [DATABASE_URL] is truthy. *)
Definition pool : bool := bool_decide (DATABASE_URL env ≠ "").

(** l.202-211 *)
Definition status_handler (c : Ctx) (req : Request) : M Flow :=
  exec try_catch
    (let* n := (if pool
                then pool_query c "SELECT count(*)::int AS c FROM clicks" sql_count
                else ret 0) in
     emit (Send 200 (JsonStatus (toISOString (now c)) n)))
    (λ e, emit (Send 200 (JsonNotOk e))) in
  ret Handled.

(** l.214-219 *)
Definition kill_switch (c : Ctx) (req : Request) : M Flow :=
  let* w := get in
  if is_killed w && negb (startsWith (path req) "/admin")
  then exec emit (Send 503 (Text "Service unavailable")) in ret Handled
  else ret Next.

(** l.220-224 *)
Definition admin_kill (c : Ctx) (req : Request) : M Flow :=
  if negb (adminOK env req)
  then exec emit (Send 403 (Text "forbidden")) in ret Handled
  else
    exec modify (set_killed (Some true)) in
    exec emit (Send 200 (Text "killed")) in
    ret Handled.

(** l.225-229 *)
Definition admin_unkill (c : Ctx) (req : Request) : M Flow :=
  if negb (adminOK env req)
  then exec emit (Send 403 (Text "forbidden")) in ret Handled
  else
    exec modify (set_killed (Some false)) in
    exec emit (Send 200 (Text "un-killed")) in
    ret Handled.

(** l.232; the greeting's leading emoji is outside the 8-bit range. *)
Definition root_handler (c : Ctx) (req : Request) : M Flow :=
  exec emit (Send 200 (Text "Tiny FOB v2 online.")) in ret Handled.

(** l.259: [(req.headers["x-forwarded-for"] || req.ip || "").split(",")[0].trim()] *)
Definition client_ip (req : Request) : string :=
  trim (hd "" (split ","
    (js_or (js_or_undef (headers req !! "x-forwarded-for") (ip req)) ""))).

(** The counter after one more click on [slug]. *)
Definition counted (slug : string) (m : gmap string nat) : gmap string nat :=
  <[slug := S (default 0 (m !! slug))]> m.

(** [clicksTotal.inc({ slug }, 1)] *)
Definition clicksTotal_inc (slug : string) : M unit :=
  exec emit (CounterInc slug) in
  modify (set_clicksTotal (counted slug)).

(** l.283, l.313-316: the statements of the two reports. *)
Definition last_text : string :=
  "SELECT ts, slug, left(dest, 60) AS dest FROM clicks ORDER BY id DESC LIMIT 5".
Definition day_text : string :=
  "SELECT id, ts, ip, ua, slug, dest FROM clicks WHERE ts::date = $1::date ORDER BY id".

(** l.265, the statement of the insert. *)
Definition insert_text : string :=
  "INSERT INTO clicks (slug, dest, ip, ua) VALUES ($1,$2,$3,$4)".

(** l.256 *)
Definition rawDest (req : Request) : QValue :=
  js_or_value (query req !! "dest") (QStr "https://example.com").

(** l.254-275 *)
Definition go_handler (slug : string) (c : Ctx) (req : Request) : M Flow :=
  let* dest := lift (resolveDest env (rawDest req)) in
  let ip := client_ip req in
  let ua := js_or (req_get req "user-agent") "" in
  exec try_catch
    (if pool
     then pool_query c insert_text (sql_insert c slug (pg_text dest) ip ua)
     else ret tt)
    (λ e, emit (ConsoleError "insert fail:" e)) in
  exec clicksTotal_inc slug in
  exec emit (Redirect 302 dest) in
  ret Handled.

(** l.278-290 *)
Definition admin_last (c : Ctx) (req : Request) : M Flow :=
  if negb (adminOK env req)
  then exec emit (Send 403 (Text "forbidden")) in ret Handled
  else
    exec try_catch
      (let* rows :=
         (if pool
          then pool_query c last_text sql_last
          else ret []) in
       emit (Send 200 (JsonRows rows)))
      (λ e, emit (Send 500 (JsonError e))) in
    ret Handled.

(** l.292-305 *)
Definition admin_export (c : Ctx) (req : Request) : M Flow :=
  if negb (adminOK env req)
  then exec emit (Send 403 (Text "forbidden")) in ret Handled
  else
    exec try_catch
      (let* rows :=
         (if pool
          then pool_query c "SELECT * FROM clicks ORDER BY id DESC LIMIT 1000" sql_export
          else ret []) in
       let* csv := lift (Parser_parse rows) in
       exec emit (SetHeader "Content-Type" "text/csv") in
       exec emit (SetHeader "Content-Disposition" "attachment; filename=clicks.csv") in
       emit (Send 200 (Csv csv)))
      (λ e, emit (Send 500 (Text ("error exporting CSV: " +:+ e)))) in
    ret Handled.

(** l.309: [(req.query.day || new Date().toISOString().slice(0, 10)).trim()] *)
Definition export_day_of (c : Ctx) (req : Request) : completion string :=
  trim_method
    (js_or_value (query req !! "day") (QStr (slice0 10 (toISOString (now c))))).

(** l.307-327; l.309 stands before the [try]. *)
Definition admin_export_day (c : Ctx) (req : Request) : M Flow :=
  if negb (adminOK env req)
  then exec emit (Send 403 (Text "forbidden")) in ret Handled
  else
    let* day := lift (export_day_of c req) in
    exec try_catch
      (let* rows :=
         (if pool
          then pool_query c day_text (sql_day day)
          else ret []) in
       let* csv := lift (Parser_parse rows) in
       exec emit (SetHeader "Content-Type" "text/csv") in
       exec emit (SetHeader "Content-Disposition"
                    ("attachment; filename=clicks_" +:+ day +:+ ".csv")) in
       emit (Send 200 (Csv csv)))
      (λ e, emit (Send 500 (Text ("export error: " +:+ e)))) in
    ret Handled.

(** l.330-333 *)
Definition metrics_handler (c : Ctx) (req : Request) : M Flow :=
  let* w := get in
  exec emit (SetHeader "Content-Type" "text/plain; version=0.0.4; charset=utf-8") in
  exec emit (Send 200 (Text (register_metrics (clicksTotal w)))) in
  ret Handled.

(** l.123-129 *)
Definition helmet (c : Ctx) (req : Request) : M Flow :=
  exec foldr (λ h k, exec emit (SetHeader h.1 h.2) in k) (ret tt) helmet_headers in
  ret Next.

(** l.130: [cors({ origin: false })] leaves every request alone. *)
Definition cors (c : Ctx) (req : Request) : M Flow := ret Next.
End App.

(** ** The rate limiter *)

(** The options object handed to [rateLimit], l.235-240. *)
Record RateLimitOptions : Type := {
  windowMs : N;
  max : nat;
  standardHeaders : bool;
  legacyHeaders : bool;
}.

Section RateLimit.
Context `{Platform}.

(** Milliseconds to whole seconds, rounded up. *)
Definition ceil_seconds (ms : N) : N := ((ms + 999) / 1000)%N.

(** The entry of a client key after one more request at [now c]: the count
    of the running window goes up, or a new window starts. *)
Definition next_entry (o : RateLimitOptions) (c : Ctx)
    (prev : option (N * nat)) : N * nat :=
  match prev with
  | Some (start, n) =>
      if (now c <? start + windowMs o)%N then (start, S n) else (now c, 1)
  | None => (now c, 1)
  end.

(** Seconds until the window of [entry] ends, as a header value. *)
Definition reset_seconds (o : RateLimitOptions) (c : Ctx) (entry : N * nat) : string :=
  pretty (ceil_seconds (entry.1 + windowMs o - now c)).

(** Modelled from the spec: the middleware that [rateLimit(options)] of
    express-rate-limit returns; the package is a dependency and its code
    is not in the repository.  Following section 4.3 and the design notes:
    a fixed window per client key, kept as (window start, count); the
    count of the current window goes up with every request; the limit,
    the remaining quota and the reset time go out as headers, in the
    standard and in the legacy spelling as the options say; a request
    beyond [max] in its window is answered with 429.  The client key is
    [keyGenerator]. *)
Definition rateLimit (o : RateLimitOptions) (c : Ctx) (req : Request) : M Flow :=
  let key := keyGenerator req in
  let* w := get in
  let entry := next_entry o c (hits w !! key) in
  let reset := reset_seconds o c entry in
  exec modify (set_hits (<[key := entry]>)) in
  exec (if standardHeaders o
        then exec emit (SetHeader "RateLimit-Limit" (pretty (max o))) in
             exec emit (SetHeader "RateLimit-Remaining" (pretty (max o - entry.2))) in
             emit (SetHeader "RateLimit-Reset" reset)
        else ret tt) in
  exec (if legacyHeaders o
        then exec emit (SetHeader "X-RateLimit-Limit" (pretty (max o))) in
             exec emit (SetHeader "X-RateLimit-Remaining" (pretty (max o - entry.2))) in
             emit (SetHeader "X-RateLimit-Reset" reset)
        else ret tt) in
  if max o <? entry.2
  then exec emit (SetHeader "Retry-After" reset) in
       exec emit (Send 429 (Text "Too many requests, please try again later.")) in
       ret Handled
  else ret Next.

(** l.235-240 *)
Definition goOptions : RateLimitOptions :=
  {| windowMs := 60000; max := 120; standardHeaders := true; legacyHeaders := false |}.

Definition goLimiter : Ctx → Request → M Flow := rateLimit goOptions.
End RateLimit.

(** ** Routing *)

(** A layer of the Express stack: [app.use([mount,] fn)] or
    [app.METHOD(pattern, fn)]; a route's function receives [req.params]. *)
Inductive Layer : Type :=
| Use (mount : option string) (fn : Ctx → Request → M Flow)
| Route (m : method) (pattern : string)
        (fn : gmap string string → Ctx → Request → M Flow).

Inductive MatchResult : Type :=
| NoMatch
| BadParam (message : string)
| Params (ps : gmap string string).

Definition method_name (m : method) : string :=
  match m with
  | GET => "GET" | POST => "POST" | HEAD => "HEAD"
  | PUT => "PUT" | DELETE => "DELETE"
  end.

(** Routing is not strict: one trailing slash is optional. *)
Definition drop_trailing_slash (p : string) : string :=
  match String.rev p with
  | String "/" r => String.rev r
  | _ => p
  end.

Definition segments (p : string) : list string :=
  split "/" (drop_trailing_slash p).

(** Segment-wise match of a path against a pattern: a segment [:name]
    captures one non-empty segment, any other segment matches itself up to
    letter case. Yields the captures, not yet decoded. *)
Fixpoint match_segments (pat segs : list string) : option (list (string * string)) :=
  match pat, segs with
  | [], [] => Some []
  | p :: pat', s :: segs' =>
      match p with
      | String ":" name =>
          if decide (s = "") then None
          else (λ r, (name, s) :: r) <$> match_segments pat' segs'
      | _ =>
          if decide (toLowerCase s = toLowerCase p)
          then match_segments pat' segs' else None
      end
  | _, _ => None
  end.

(** A route is mounted on every path below [mount], up to letter case. *)
Definition mounted (mount p : string) : bool :=
  bool_decide (toLowerCase p = toLowerCase mount)
  || startsWith (toLowerCase p) (toLowerCase mount +:+ "/").

(** A [get] route also serves [HEAD]. *)
Definition method_matches (route_m req_m : method) : bool :=
  bool_decide (route_m = req_m)
  || (bool_decide (route_m = GET) && bool_decide (req_m = HEAD)).

Section Server.
Context `{Platform}.
Variable env : ProcessEnv.

Fixpoint decode_params (raw : list (string * string))
    (acc : gmap string string) : MatchResult :=
  match raw with
  | [] => Params acc
  | (k, v) :: rest =>
      match decode_param v with
      | Normal v' => decode_params rest (<[k := v']> acc)
      | Throw m => BadParam m
      end
  end.

Definition match_route (pattern p : string) : MatchResult :=
  match match_segments (segments pattern) (segments p) with
  | None => NoMatch
  | Some raw => decode_params raw ∅
  end.

(** The router: layers are tried in the order of their registration; a
    layer that ends the request stops the walk; a parameter that does
    not decode is answered with 400; a request no layer ends is answered
    with 404. An exception that escapes a layer is left in the [result]. *)
Fixpoint dispatch (stack : list Layer) (c : Ctx) (req : Request) : M Flow :=
  match stack with
  | [] =>
      exec emit (Send 404 (Text ("Cannot " +:+ method_name (req_method req)
                                   +:+ " " +:+ path req))) in
      ret Handled
  | Use mount fn :: rest =>
      if match mount with None => true | Some m => mounted m (path req) end
      then let* f := fn c req in
           match f with Next => dispatch rest c req | Handled => ret Handled end
      else dispatch rest c req
  | Route m pattern fn :: rest =>
      match match_route pattern (path req) with
      | NoMatch => dispatch rest c req
      | BadParam _ => exec emit (Send 400 (Text "Bad Request")) in ret Handled
      | Params ps =>
          if method_matches m (req_method req)
          then let* f := fn ps c req in
               match f with Next => dispatch rest c req | Handled => ret Handled end
          else dispatch rest c req
      end
  end.

(** The layers registered before the kill switch, l.123-211. *)
Definition before_kill_switch : list Layer :=
  [ Use None helmet;
    Use None cors;
    Route GET "/status" (λ _, status_handler env) ].

(** The layers registered after the kill switch, l.220-333. *)
Definition after_kill_switch : list Layer :=
  [ Route POST "/admin/kill" (λ _, admin_kill env);
    Route POST "/admin/unkill" (λ _, admin_unkill env);
    Route GET "/" (λ _, root_handler);
    Use (Some "/go") goLimiter;
    Route GET "/go/:slug" (λ ps, go_handler env (ps !!! "slug"));
    Route GET "/admin/last" (λ _, admin_last env);
    Route GET "/admin/export" (λ _, admin_export env);
    Route GET "/admin/export/day" (λ _, admin_export_day env);
    Route GET "/metrics" (λ _, metrics_handler) ].

(** The application: the stack in the order of registration. *)
Definition app : list Layer :=
  before_kill_switch ++ Use None kill_switch :: after_kill_switch.

Definition handle (c : Ctx) (req : Request) : M Flow := dispatch app c req.

(** Serving requests one after the other. A run that ends in an exception
    leaves the state as the handler left it. *)
Fixpoint serve (rs : list (Ctx * Request)) (w : World) : list (list action) * World :=
  match rs with
  | [] => ([], w)
  | (c, req) :: rest =>
      let o := handle c req w in
      let r := serve rest (world o) in
      (acts o :: r.1, r.2)
  end.

(** l.336 *)
Definition port : string := js_or (PORT env) "3000".

(** The schema set-up of l.169-184, run as a detached task: three
    statements one after the other, each with what the outside decides for
    it ([c1], [c2], [c3]). *)
Definition schema_init (c1 c2 c3 : Ctx) : M unit :=
  try_catch
    (exec pool_query c1 "CREATE TABLE IF NOT EXISTS clicks" (λ w, Normal (tt, w)) in
     exec pool_query c2 "CREATE INDEX IF NOT EXISTS clicks_ts_idx ON clicks(ts)"
            (λ w, Normal (tt, w)) in
     exec pool_query c3 "CREATE INDEX IF NOT EXISTS clicks_slug_idx ON clicks(slug)"
            (λ w, Normal (tt, w)) in
     emit (ConsoleLog "Postgres connected, clicks table/indexes ready"))
    (λ e, emit (ConsoleError "DB init error:" e)).

(** Evaluation of the module, l.109-337: the synchronous part runs up to
    [app.listen], whose callback logs the port once the server listens;
    the schema set-up was started without being awaited and resumes from
    the store after that. *)
Definition startup (c1 c2 c3 : Ctx) : M unit :=
  exec (if pool env then ret tt
        else emit (ConsoleWarn "No DATABASE_URL set. Logging disabled.")) in
  exec emit (Listen port) in
  exec emit (ConsoleLog ("Tiny FOB v2 running on port " +:+ port)) in
  if pool env then schema_init c1 c2 c3 else ret tt.
End Server.

(** ** The first variant, l.1-104 *)

Module V1.
(** l.80-82: the header is compared with [process.env.FOB_ADMIN_PASS]
    itself, which may be [undefined]. *)
Definition adminOK (env : ProcessEnv) (req : Request) : bool :=
  bool_decide (req_get req "x-admin-pass" = FOB_ADMIN_PASS env).

(** l.21-35 and l.103-104: the pool is constructed whatever
    [DATABASE_URL] is, and the module awaits the table's creation before
    it goes on to [app.listen]. *)
Definition startup (env : ProcessEnv) (c : Ctx) : M unit :=
  exec pool_query c "CREATE TABLE IF NOT EXISTS clicks" (λ w, Normal (tt, w)) in
  exec emit (Listen (js_or (PORT env) "3000")) in
  emit (ConsoleLog ("Tiny FOB v2 running on " +:+ js_or (PORT env) "3000")).

(** l.97-100: no [try] around the query. *)
Definition status_handler `{Platform} (c : Ctx) (req : Request) : M Flow :=
  let* n := pool_query c "SELECT COUNT(*)::int AS c FROM clicks" sql_count in
  exec emit (Send 200 (JsonStatus (toISOString (now c)) n)) in
  ret Handled.

(** l.87: [SELECT ts, slug, dest FROM clicks ORDER BY id DESC LIMIT 5] *)
Definition sql_last (w : World) : completion (list LastRow * World) :=
  Normal ((λ r, {| l_ts := ts r; l_slug := slug r; l_dest := dest r |}) <$>
            take 5 (merge_sort id_desc (clicks w)), w).

(** l.84-90: no [try] around the query. *)
Definition admin_last (env : ProcessEnv) (c : Ctx) (req : Request) : M Flow :=
  if negb (adminOK env req)
  then exec emit (Send 403 (Text "forbidden")) in ret Handled
  else
    let* rows :=
      pool_query c "SELECT ts, slug, dest FROM clicks ORDER BY id DESC LIMIT 5" sql_last in
    exec emit (Send 200 (JsonRows rows)) in
    ret Handled.
End V1.

(** ** A concrete platform, for running the model on examples

    A fragment of each library function, right on the inputs of the
    examples below and a stand-in elsewhere: URLs of the shape
    [scheme://host/rest]; route parameters without escapes; the calendar
    days 2024-01-15 and 2024-01-16, and texts that are no date in any
    notation; arrays of strings as statement parameters; and of json2csv
    its refusal of an empty list of rows, the text it makes of other lists
    being a stand-in. *)

Module Demo.
Fixpoint take_until (stop : ascii) (s : string) : string :=
  match s with
  | EmptyString => EmptyString
  | String c r => if decide (c = stop) then EmptyString else String c (take_until stop r)
  end.

Definition after (p s : string) : string :=
  String.substring (String.length p) (String.length s - String.length p) s.

Definition simple_URL_new (raw : string) : completion URL :=
  let scheme := toLowerCase (take_until ":" raw) in
  if startsWith (after scheme raw) "://" && negb (bool_decide (scheme = ""))
  then Normal {| protocol := scheme +:+ ":";
                 hostname := toLowerCase (take_until "/" (after (scheme +:+ "://") raw)) |}
  else Throw "Invalid URL".

Definition plain_param (s : string) : completion string :=
  if bool_decide ("%"%char ∈ String.list_ascii_of_string s)
  then Throw "Failed to decode param" else Normal s.

Definition day_ms : N := 86400000.

Definition two_days_of_ts (t : N) : string :=
  if (t / day_ms =? 19737)%N then "2024-01-15"
  else if (t / day_ms =? 19738)%N then "2024-01-16"
  else "1970-01-01".

(** The double quote, which a string literal here cannot hold. *)
Definition dq : string := String "034" "".

Definition two_days_of_text (s : string) : completion string :=
  if bool_decide (s ∈ ["2024-01-15"; "2024-01-16"]) then Normal s
  else Throw ("invalid input syntax for type date: " +:+ dq +:+ s +:+ dq).

Definition two_days_iso (t : N) : string := two_days_of_ts t +:+ "T00:00:00.000Z".

Definition csv_line (r : Click) : string :=
  pretty (id r) +:+ "," +:+ pretty (ts r) +:+ "," +:+ c_ip r +:+ "," +:+ ua r
    +:+ "," +:+ slug r +:+ "," +:+ dest r.

(** json2csv, given no [fields] option, takes the columns from the rows
    and throws when there is no row. *)
Definition lines_csv (rows : list Click) : completion string :=
  match rows with
  | [] =>
      Throw ("Data should not be empty or the " +:+ dq +:+ "fields" +:+ dq
             +:+ " option should be included")
  | _ :: _ => Normal (foldr (λ r acc, csv_line r +:+ "\n" +:+ acc) "" rows)
  end.

(** node-postgres writes an array parameter as an array literal, each
    string between double quotes with its backslashes and double quotes
    escaped. *)
Fixpoint escape_element (s : string) : string :=
  match s with
  | EmptyString => EmptyString
  | String c r =>
      if bool_decide (c = "034"%char) || bool_decide (c = "092"%char)
      then String "092" (String c (escape_element r))
      else String c (escape_element r)
  end.

Fixpoint array_string (v : QValue) : string :=
  match v with
  | QStr s => dq +:+ escape_element s +:+ dq
  | QArr items =>
      "{" +:+ (fix elements (l : list QValue) : string :=
                 match l with
                 | [] => ""
                 | x :: r =>
                     array_string x +:+
                     match r with [] => "" | _ :: _ => "," +:+ elements r end
                 end) items +:+ "}"
  | QObj _ => dq +:+ "{}" +:+ dq
  end.

Definition platform : Platform :=
  {| URL_new := simple_URL_new;
     decode_param := plain_param;
     toISOString := two_days_iso;
     pg_date_of_ts := two_days_of_ts;
     pg_date_of_text := two_days_of_text;
     prepareValue := array_string;
     Parser_parse := lines_csv;
     register_metrics := λ m, pretty (size m);
     helmet_headers := [("Referrer-Policy", "no-referrer")];
     keyGenerator := λ req, default "" (ip req) |}.

Definition env_plain : ProcessEnv :=
  {| FOB_ADMIN_PASS := None; DATABASE_URL_var := None;
     DEST_HOST_ALLOWLIST_var := None; PORT := None |}.

Definition env_db : ProcessEnv :=
  {| FOB_ADMIN_PASS := Some "s3cret"; DATABASE_URL_var := Some "postgres://db/fob";
     DEST_HOST_ALLOWLIST_var := Some "Example.com, good.org ,"; PORT := None |}.

(** A request whose query parameters are each written once. *)
Definition request (m : method) (p : string) (q h : list (string * string)) : Request :=
  {| req_method := m; path := p; query := QStr <$> list_to_map q;
     headers := list_to_map h; ip := Some "203.0.113.7" |}.

(** The same request with one more query parameter. *)
Definition with_param (k : string) (v : QValue) (r : Request) : Request :=
  {| req_method := req_method r; path := path r; query := <[k := v]> (query r);
     headers := headers r; ip := ip r |}.

Definition calm (t : N) : Ctx := {| now := t; db_fault := None; db_latency := 0 |}.
Definition slow (t d : N) : Ctx := {| now := t; db_fault := None; db_latency := d |}.
Definition outage (t : N) : Ctx :=
  {| now := t; db_fault := Some "connect ECONNREFUSED"; db_latency := 3 |}.

Definition t0 : N := 19737 * day_ms.

Definition go_abc : Request :=
  request GET "/go/abc" [("dest", "https://example.com/ok?x=1#top")] [].
Definition get_status : Request := request GET "/status" [] [].
Definition post_kill : Request :=
  request POST "/admin/kill" [] [("x-admin-pass", "s3cret")].
Definition get_day : Request :=
  request GET "/admin/export/day" [("day", " 2024-01-15 ")] [("x-admin-pass", "s3cret")].

Definition killed_world : World := set_killed (Some true) initial_world.

(** 121 redirect requests of one client, one every 100 ms. *)
Definition burst : list (Ctx * Request) :=
  (λ i, (calm (t0 + 100 * N.of_nat i), go_abc)) <$> seq 0 121.

(** Three clicks: two on 2024-01-15, one on the day after. *)
Definition three_clicks : World :=
  set_clicks (λ _,
    [ {| id := 2; ts := t0 + 7; slug := "b"; dest := "https://good.org/"; c_ip := ""; ua := "" |};
      {| id := 1; ts := t0 + 5; slug := "a"; dest := "https://good.org/"; c_ip := ""; ua := "" |};
      {| id := 3; ts := t0 + day_ms; slug := "c"; dest := "https://good.org/"; c_ip := ""; ua := "" |} ])
    initial_world.
End Demo.

(** ** Reading a run *)

Definition is_response (a : action) : bool :=
  match a with Send _ _ | Redirect _ _ => true | _ => false end.

(** The response a run sent: the first [Send] or [Redirect] among its calls. *)
Definition response_of (l : list action) : option action :=
  head (filter (λ a, is_response a = true) l).

(** Whether the handler resumed from an [await] on the store before it
    responded. *)
Fixpoint awaited_before_response (l : list action) : bool :=
  match l with
  | [] => false
  | Awaited _ _ _ :: _ => true
  | a :: r => if is_response a then false else awaited_before_response r
  end.

(** The time the handler spent suspended on the store before it responded. *)
Fixpoint response_delay (l : list action) : N :=
  match l with
  | [] => 0
  | Awaited _ d _ :: r => d + response_delay r
  | a :: r => if is_response a then 0 else response_delay r
  end%N.

(** Whether a run reached [app.listen]. *)
Definition listening (l : list action) : Prop := ∃ p, Listen p ∈ l.

(** The calls [helmet] makes. *)
Definition helmet_calls `{Platform} : list action :=
  (λ h, SetHeader h.1 h.2) <$> helmet_headers.

(** The calls of the limiter on a request it lets through. *)
Definition limiter_calls (c : Ctx) (e : N * nat) : list action :=
  [SetHeader "RateLimit-Limit" "120";
   SetHeader "RateLimit-Remaining" (pretty (120 - e.2));
   SetHeader "RateLimit-Reset" (reset_seconds goOptions c e)].

(** The calls of the limiter on a request it rejects. *)
Definition limiter_rejection (c : Ctx) (e : N * nat) : list action :=
  limiter_calls c e ++
  [SetHeader "Retry-After" (reset_seconds goOptions c e);
   Send 429 (Text "Too many requests, please try again later.")].

(** A computation that leaves the limiter's store as it found it. *)
Definition hits_kept {A} (m : M A) : Prop := ∀ w, hits (world (m w)) = hits w.

(** A layer leaves the store alone on this request, if it runs at all. *)
Definition layer_keeps_hits (c : Ctx) (req : Request) (l : Layer) : Prop :=
  match l with
  | Use None fn => hits_kept (fn c req)
  | Use (Some m) fn => mounted m (path req) = true → hits_kept (fn c req)
  | Route _ _ fn => ∀ ps, hits_kept (fn ps c req)
  end.

(** ** The specification's statements, in its own words *)

Section Statements.
Context `{Platform}.
Variable env : ProcessEnv.

(** Section 4.1: the candidate parses as an absolute URL, its scheme is
    [http] or [https], and, when the allowlist is not empty, its lower-cased
    host name is a member. *)
Definition accepted (raw : string) : Prop :=
  ∃ u, URL_new raw = Normal u
     ∧ (protocol u = "http:" ∨ protocol u = "https:")
     ∧ (DEST_HOST_ALLOWLIST env ≠ [] →
        toLowerCase (hostname u) ∈ DEST_HOST_ALLOWLIST env).

(** Sections 4.1 and 4.5: the destination a redirect request resolves to
    is its [dest] parameter when the validator accepts it, and the fallback
    when the validator rejects it or the parameter is missing or empty. *)
Definition resolved_destination (req : Request) (d : QValue) : Prop :=
  (∀ s, query req !! "dest" = Some (QStr s) → s ≠ "" →
        (accepted s → d = QStr s)
        ∧ (¬ accepted s → d = QStr "https://example.com"))
  ∧ (query req !! "dest" = None ∨ query req !! "dest" = Some (QStr "") →
     d = QStr "https://example.com").

(** Section 4.2 and 5: the store write is not awaited before the redirect is
    sent, and its latency does not delay the response. *)
Definition fire_and_forget (slug : string) (c : Ctx) (req : Request) (w : World) : Prop :=
  let o := go_handler env slug c req w in
  awaited_before_response (acts o) = false ∧ response_delay (acts o) = 0%N.

(** Section 4.4: a request outside the admin namespace, while the switch is
    engaged, is answered 503 and leaves the state as it was. *)
Definition refused_503 (c : Ctx) (req : Request) (w : World) : Prop :=
  let o := handle env c req w in
  response_of (acts o) = Some (Send 503 (Text "Service unavailable")) ∧ world o = w.

(** Sections 4.6 and 8: the filtered export returns exactly the events
    whose timestamp falls on the day asked for, in the order of their
    insertion, in the tabular encoding, under a file name made of the
    day. *)
Definition exports_the_day (c : Ctx) (req : Request) (w : World) (day : string) : Prop :=
  ∃ rows csv,
    (∀ r, r ∈ rows ↔ r ∈ clicks w ∧ pg_date_of_ts (ts r) = day)
    ∧ StronglySorted id_asc rows
    ∧ Parser_parse rows = Normal csv
    ∧ response_of (acts (admin_export_day env c req w)) = Some (Send 200 (Csv csv))
    ∧ SetHeader "Content-Disposition" ("attachment; filename=clicks_" +:+ day +:+ ".csv")
      ∈ acts (admin_export_day env c req w).

(** The request is one the [/status] route answers. *)
Definition status_request (req : Request) : bool :=
  match match_route "/status" (path req) with
  | Params _ => method_matches GET (req_method req)
  | _ => false
  end.

(** The request is one the redirect route answers, with this slug. *)
Definition redirect_request (req : Request) (slug : string) : Prop :=
  (req_method req = GET ∨ req_method req = HEAD)
  ∧ ∃ ps, match_route "/go/:slug" (path req) = Params ps ∧ ps !!! "slug" = slug.
End Statements.

(** ** Relating the state before and after a run *)

(** [m] takes every state to one that [R] relates to it. *)
Definition respects (R : relation World) {A} (m : M A) : Prop :=
  ∀ w, R w (world (m w)).

(** The table only grows, and at its end. *)
Definition table_extends (w w' : World) : Prop :=
  clicks w `prefix_of` clicks w'.

(** No counter goes down, and none disappears. *)
Definition counts_grow (w w' : World) : Prop :=
  ∀ s, default 0 (clicksTotal w !! s) ≤ default 0 (clicksTotal w' !! s)
       ∧ (is_Some (clicksTotal w !! s) → is_Some (clicksTotal w' !! s)).

(** The [id]s of the table increase with insertion, and none is ahead of the
    sequence that hands them out. *)
Definition fresh_ids (w : World) : Prop :=
  StronglySorted lt (id <$> clicks w)
  ∧ Forall (λ r, id r ≤ clicks_id_seq w) (clicks w).

(** Everything but the kill switch is as it was. *)
Definition same_but_killed (w w' : World) : Prop :=
  clicks w' = clicks w ∧ clicks_id_seq w' = clicks_id_seq w
  ∧ clicksTotal w' = clicksTotal w ∧ hits w' = hits w.

(** The state after serving requests one after the other. *)
Definition served `{Platform} (env : ProcessEnv) (rs : list (Ctx * Request)) (w : World) : World :=
  (serve env rs w).2.

(** A layer respects [R] on this request, if it runs at all. *)
Definition layer_respects `{Platform} (R : relation World) (c : Ctx) (req : Request)
    (l : Layer) : Prop :=
  match l with
  | Use None fn => respects R (fn c req)
  | Use (Some m) fn => mounted m (path req) = true → respects R (fn c req)
  | Route _ pattern fn =>
      ∀ ps, match_route pattern (path req) = Params ps → respects R (fn ps c req)
  end.

(** ** Characters of a string *)

(** [s.includes(c)] for a character [c]. *)
Fixpoint has_char (c : ascii) (s : string) : bool :=
  match s with
  | EmptyString => false
  | String a r => bool_decide (a = c) || has_char c r
  end.

(** [s] does not start with white space. *)
Definition starts_clean (s : string) : Prop :=
  match s with
  | EmptyString => True
  | String c _ => is_js_space c = false
  end.

(** The code units below U+0100 that are white space or line terminators
    in ECMAScript: TAB, LF, VT, FF, CR, SP, NBSP. *)
Definition white_space_codes : list nat := [9; 10; 11; 12; 13; 32; 160].

(** [s] neither starts nor ends with white space. *)
Definition no_space_around (s : string) : Prop :=
  (∀ c r, s = String c r → nat_of_ascii c ∉ white_space_codes)
  ∧ (∀ r c, s = r +:+ String c "" → nat_of_ascii c ∉ white_space_codes).

(** [s] is white space throughout. *)
Definition blank (s : string) : Prop :=
  ∀ c, has_char c s = true → nat_of_ascii c ∈ white_space_codes.

(** [t] is [s] without the white space at its two ends. *)
Definition trimmed_of (s t : string) : Prop :=
  no_space_around t
  ∧ ∃ pre post, s = pre +:+ t +:+ post ∧ blank pre ∧ blank post.

(** [s] has no capital letter: none of A-Z, and none of U+00C0-U+00DE
    other than the multiplication sign U+00D7. *)
Definition no_capital (s : string) : Prop :=
  ∀ c, has_char c s = true →
       ¬ (65 ≤ nat_of_ascii c ≤ 90)
       ∧ ¬ (192 ≤ nat_of_ascii c ≤ 222 ∧ nat_of_ascii c ≠ 215).

(** ** More example requests *)

Module Cases.
Definition get_metrics : Request := Demo.request GET "/metrics" [] [].
Definition post_kill_unsigned : Request := Demo.request POST "/admin/kill" [] [].
Definition post_unkill : Request :=
  Demo.request POST "/admin/unkill" [] [("x-admin-pass", "s3cret")].
Definition get_export : Request :=
  Demo.request GET "/admin/export" [] [("x-admin-pass", "s3cret")].
Definition get_day_misspelt : Request :=
  Demo.request GET "/admin/export/day" [("day", "not-a-date")] [("x-admin-pass", "s3cret")].
Definition get_day_after : Request :=
  Demo.request GET "/admin/export/day" [("day", "2024-01-16")] [("x-admin-pass", "s3cret")].
(** Two clicks, both on 2024-01-15. *)
Definition two_clicks : World :=
  set_clicks_id_seq 2 (set_clicks (λ _,
    [ {| id := 1; ts := Demo.t0 + 5; slug := "a"; dest := "https://good.org/";
         c_ip := ""; ua := "" |};
      {| id := 2; ts := Demo.t0 + 7; slug := "b"; dest := "https://good.org/";
         c_ip := ""; ua := "" |} ])
    initial_world).
(** [?day=2024-01-15&day=2024-01-16] *)
Definition get_day_twice : Request :=
  Demo.with_param "day" (QArr [QStr "2024-01-15"; QStr "2024-01-16"])
    (Demo.request GET "/admin/export/day" [] [("x-admin-pass", "s3cret")]).
(** [?dest=https://good.org/a&dest=https://good.org/b] *)
Definition go_two_dests : Request :=
  Demo.with_param "dest" (QArr [QStr "https://good.org/a"; QStr "https://good.org/b"])
    (Demo.request GET "/go/abc" [] []).
(** [DEST_HOST_ALLOWLIST] set to a no-break space and a space. *)
Definition env_blank : ProcessEnv :=
  {| FOB_ADMIN_PASS := None; DATABASE_URL_var := None;
     DEST_HOST_ALLOWLIST_var := Some (String "160" " "); PORT := None |}.
Definition go_forwarded : Request :=
  Demo.request GET "/go/abc" [] [("x-forwarded-for", " 198.51.100.4 , 10.0.0.1")].
Definition go_proxied : Request :=
  Demo.request GET "/go/abc" [] [("x-forwarded-for", "198.51.100.4")].
End Cases.

(** * Properties *)

(** ** The monad *)

Lemma bind_normal {A B} (m : M A) (k : A → M B) w a x w1 :
  m w = {| acts := a; result := Normal x; world := w1 |} →
  bind m k w = after_calls a (k x w1).
Proof. intros E. unfold bind. by rewrite E. Qed.

Lemma after_calls_nil {A} (o : Outcome A) : after_calls [] o = o.
Proof. by destruct o. Qed.

Lemma after_calls_acts {A} pre (o : Outcome A) : acts (after_calls pre o) = pre ++ acts o.
Proof. by destruct o. Qed.

Lemma after_calls_world {A} pre (o : Outcome A) : world (after_calls pre o) = world o.
Proof. by destruct o. Qed.

(** ** Strings *)

Lemma append_nil_l (t : string) : "" +:+ t = t.
Proof. reflexivity. Qed.

Lemma append_cons a (s t : string) : String a s +:+ t = String a (s +:+ t).
Proof. reflexivity. Qed.

Lemma append_assoc (s t u : string) : (s +:+ t) +:+ u = s +:+ (t +:+ u).
Proof. induction s as [|a s IH]; [done|]. by rewrite !append_cons, IH. Qed.

Lemma append_empty_r (s : string) : s +:+ "" = s.
Proof. induction s as [|a s IH]; [done|]. by rewrite append_cons, IH. Qed.

Lemma rev_app_append s acc : String.rev_app s acc = String.rev s +:+ acc.
Proof.
  unfold String.rev. revert acc.
  induction s as [|a s IH]; intros acc; [done|].
  cbn [String.rev_app]. rewrite (IH (String a "")), (IH (String a acc)).
  by rewrite append_assoc.
Qed.

Lemma rev_cons a s : String.rev (String a s) = String.rev s +:+ String a "".
Proof. unfold String.rev at 1. cbn [String.rev_app]. apply rev_app_append. Qed.

Lemma rev_append s t : String.rev (s +:+ t) = String.rev t +:+ String.rev s.
Proof.
  induction s as [|a s IH].
  - rewrite append_nil_l. change (String.rev "") with "".
    by rewrite append_empty_r.
  - by rewrite append_cons, !rev_cons, IH, append_assoc.
Qed.

Lemma rev_involutive s : String.rev (String.rev s) = s.
Proof.
  induction s as [|a s IH]; [done|].
  by rewrite rev_cons, rev_append, IH.
Qed.

(** Dropping the trailing slash takes at most one ["/"] off the end. *)
Lemma drop_trailing_slash_cases p :
  p = drop_trailing_slash p ∨ p = drop_trailing_slash p +:+ "/".
Proof.
  unfold drop_trailing_slash.
  destruct (String.rev p) as [|a r] eqn:E; [by left|].
  destruct (decide (a = "/"%char)) as [->|Hne].
  - right. rewrite <- (rev_involutive p) at 1. by rewrite E, rev_cons.
  - left. destruct a as [[] [] [] [] [] [] [] []]; done.
Qed.

Lemma toLowerCase_append s t :
  toLowerCase (s +:+ t) = toLowerCase s +:+ toLowerCase t.
Proof.
  induction s as [|a s IH]; [done|].
  rewrite append_cons. cbn [toLowerCase]. by rewrite append_cons, IH.
Qed.

Lemma toLowerCase_empty s : toLowerCase s = "" → s = "".
Proof. by destruct s. Qed.

Lemma split_not_nil sep s : split sep s ≠ [].
Proof.
  destruct s as [|c r]; cbn; [done|].
  case_decide; [done|]. by destruct (split sep r).
Qed.

(** [split] cuts at every separator: gluing the pieces with the separator
    gives the string back. *)
Lemma split_one sep s x : split sep s = [x] → s = x.
Proof.
  revert x. induction s as [|c r IH]; intros x; cbn.
  - by intros [= <-].
  - case_decide.
    + intros [= <- E]. by apply split_not_nil in E.
    + destruct (split sep r) as [|h t] eqn:E; [by apply split_not_nil in E|].
      intros [= <- ->]. f_equal. by apply IH.
Qed.

Lemma split_two sep s b x : split sep s = [b; x] → s = b +:+ String sep x.
Proof.
  revert b x. induction s as [|c r IH]; intros b x; cbn; [done|].
  case_decide as Hc.
  - intros [= <- E]. subst c. rewrite append_nil_l. f_equal. by apply split_one in E.
  - destruct (split sep r) as [|h t] eqn:E; [by apply split_not_nil in E|].
    intros [= <- ->]. rewrite append_cons. f_equal. by apply IH.
Qed.

Lemma split_three sep s a b x :
  split sep s = [a; b; x] → s = a +:+ String sep (b +:+ String sep x).
Proof.
  revert a b x. induction s as [|c r IH]; intros a b x; cbn; [done|].
  case_decide as Hc.
  - intros [= <- E]. subst c. rewrite append_nil_l. f_equal. by apply split_two in E.
  - destruct (split sep r) as [|h t] eqn:E; [by apply split_not_nil in E|].
    intros [= <- ->]. rewrite append_cons. f_equal. by apply IH.
Qed.

Lemma prefix_append (q t : string) : String.prefix q (q +:+ t) = true.
Proof.
  induction q as [|a q IH]; [by destruct t|].
  rewrite append_cons. cbn [String.prefix].
  destruct (Ascii.ascii_dec a a); [apply IH | done].
Qed.

Lemma lower_char_idemp c : lower_char (lower_char c) = lower_char c.
Proof. by destruct c as [[] [] [] [] [] [] [] []]. Qed.

Lemma lower_char_space c : is_js_space (lower_char c) = is_js_space c.
Proof. by destruct c as [[] [] [] [] [] [] [] []]. Qed.

Lemma lower_char_comma c : lower_char c = ","%char ↔ c = ","%char.
Proof. destruct c as [[] [] [] [] [] [] [] []]; split; done. Qed.

Lemma toLowerCase_idemp s : toLowerCase (toLowerCase s) = toLowerCase s.
Proof. induction s as [|c s IH]; cbn; [done|]. by rewrite lower_char_idemp, IH. Qed.

Lemma toLowerCase_rev s : String.rev (toLowerCase s) = toLowerCase (String.rev s).
Proof.
  induction s as [|c s IH]; [done|].
  cbn [toLowerCase]. by rewrite !rev_cons, toLowerCase_append, IH.
Qed.

Lemma toLowerCase_trimStart s : trimStart (toLowerCase s) = toLowerCase (trimStart s).
Proof.
  induction s as [|c s IH]; [done|].
  cbn [toLowerCase trimStart]. rewrite lower_char_space.
  by destruct (is_js_space c).
Qed.

Lemma toLowerCase_trim s : trim (toLowerCase s) = toLowerCase (trim s).
Proof.
  unfold trim, trimEnd.
  by rewrite toLowerCase_trimStart, !toLowerCase_rev, toLowerCase_trimStart, toLowerCase_rev.
Qed.

Lemma toLowerCase_split s :
  split "," (toLowerCase s) = toLowerCase <$> split "," s.
Proof.
  induction s as [|c s IH]; [done|].
  cbn [toLowerCase split]. rewrite IH.
  destruct (decide (c = ","%char)) as [->|Hne].
  - done.
  - destruct (decide (lower_char c = ","%char)) as [E|_].
    + by apply (proj1 (lower_char_comma c)) in E.
    + by destruct (split "," s).
Qed.

Lemma trimStart_clean s : starts_clean (trimStart s).
Proof.
  induction s as [|c s IH]; [done|]. cbn.
  by destruct (is_js_space c) eqn:E.
Qed.

Lemma trimStart_id s : starts_clean s → trimStart s = s.
Proof. destruct s as [|c s]; [done|]. cbn. by intros ->. Qed.

Lemma trimStart_suffix s : ∃ sp, s = sp +:+ trimStart s.
Proof.
  induction s as [|c s [sp IH]]; [by exists ""|]. cbn.
  destruct (is_js_space c).
  - exists (String c sp). by rewrite append_cons, <- IH.
  - by exists "".
Qed.

Lemma starts_clean_prefix s t : starts_clean (s +:+ t) → starts_clean s.
Proof. by destruct s. Qed.

Lemma trimEnd_clean t : starts_clean t → starts_clean (trimEnd t).
Proof.
  intros Ht. unfold trimEnd.
  destruct (trimStart_suffix (String.rev t)) as [sp E].
  apply (starts_clean_prefix _ (String.rev sp)).
  by rewrite <- rev_append, <- E, rev_involutive.
Qed.

Lemma trimEnd_idemp t : trimEnd (trimEnd t) = trimEnd t.
Proof.
  unfold trimEnd. rewrite rev_involutive.
  by rewrite (trimStart_id (trimStart _)) by apply trimStart_clean.
Qed.

Lemma trim_idemp s : trim (trim s) = trim s.
Proof.
  unfold trim.
  rewrite (trimStart_id (trimEnd _)) by apply trimEnd_clean, trimStart_clean.
  apply trimEnd_idemp.
Qed.

Lemma has_char_append c s t : has_char c (s +:+ t) = has_char c s || has_char c t.
Proof.
  induction s as [|a s IH]; [done|].
  rewrite append_cons. cbn. by rewrite IH, orb_assoc.
Qed.

Lemma has_char_rev c s : has_char c (String.rev s) = has_char c s.
Proof.
  induction s as [|a s IH]; [done|].
  rewrite rev_cons, has_char_append, IH. cbn. by rewrite orb_false_r, orb_comm.
Qed.

Lemma has_char_trimStart c s : has_char c s = false → has_char c (trimStart s) = false.
Proof.
  intros Hs. destruct (trimStart_suffix s) as [sp E].
  rewrite E, has_char_append in Hs. by apply orb_false_iff in Hs as [_ ?].
Qed.

Lemma has_char_trim c s : has_char c s = false → has_char c (trim s) = false.
Proof.
  intros Hs. unfold trim, trimEnd. rewrite has_char_rev.
  apply has_char_trimStart. rewrite has_char_rev. by apply has_char_trimStart.
Qed.

(** The pieces of [split] hold no separator, and the first of them is what
    stands before the first separator. *)
Lemma split_pieces sep s :
  Forall (λ piece, has_char sep piece = false) (split sep s).
Proof.
  induction s as [|c s IH]; cbn; [by repeat constructor|].
  case_decide as Hc; [by constructor|].
  destruct (split sep s) as [|h t]; [repeat constructor; cbn|].
  - by rewrite bool_decide_eq_false_2.
  - apply Forall_cons in IH as [Hh Ht]. constructor; [|done].
    cbn. by rewrite bool_decide_eq_false_2.
Qed.

Lemma split_first sep h rest :
  has_char sep h = false → split sep (h +:+ String sep rest) = h :: split sep rest.
Proof.
  induction h as [|c h IH]; intros Hh.
  - rewrite append_nil_l. cbn. by rewrite decide_True.
  - cbn in Hh. apply orb_false_iff in Hh as [Hc Hh].
    apply bool_decide_eq_false in Hc.
    rewrite append_cons. cbn [split]. rewrite decide_False by done.
    by rewrite IH.
Qed.

Lemma split_whole sep h : has_char sep h = false → split sep h = [h].
Proof.
  induction h as [|c h IH]; intros Hh; [done|].
  cbn in Hh. apply orb_false_iff in Hh as [Hc Hh].
  apply bool_decide_eq_false in Hc.
  cbn [split]. rewrite decide_False by done. by rewrite IH.
Qed.

Lemma is_js_space_codes c :
  is_js_space c = bool_decide (nat_of_ascii c ∈ white_space_codes).
Proof. by destruct c as [[] [] [] [] [] [] [] []]. Qed.

Lemma lower_char_no_capital a :
  ¬ (65 ≤ nat_of_ascii (lower_char a) ≤ 90)
  ∧ ¬ (192 ≤ nat_of_ascii (lower_char a) ≤ 222 ∧ nat_of_ascii (lower_char a) ≠ 215).
Proof. destruct a as [[] [] [] [] [] [] [] []]; vm_compute; lia. Qed.

Lemma toLowerCase_no_capital s : no_capital (toLowerCase s).
Proof.
  intros c. induction s as [|a s IH]; [done|]. cbn [toLowerCase has_char].
  intros [E|Hin]%orb_true_iff; [|auto].
  apply bool_decide_eq_true in E as <-. apply lower_char_no_capital.
Qed.

Lemma starts_clean_first s c r :
  starts_clean s → s = String c r → nat_of_ascii c ∉ white_space_codes.
Proof.
  intros Hs ->. cbn in Hs. rewrite is_js_space_codes in Hs.
  by apply bool_decide_eq_false in Hs.
Qed.

Lemma trim_no_space_around s : no_space_around (trim s).
Proof.
  split.
  - intros c r E. apply (starts_clean_first (trim s) c r); [|done].
    unfold trim. apply trimEnd_clean, trimStart_clean.
  - intros r c E. apply (starts_clean_first (String.rev (trim s)) c (String.rev r)).
    + unfold trim, trimEnd. rewrite rev_involutive. apply trimStart_clean.
    + by rewrite E, rev_append.
Qed.

Lemma blank_trim s : blank s → trim s = "".
Proof.
  intros Hb. assert (trimStart s = "") as E; [|unfold trim; by rewrite E].
  induction s as [|c s IH]; [done|]. cbn [trimStart].
  rewrite is_js_space_codes, bool_decide_eq_true_2.
  - apply IH. intros a Ha. apply Hb. cbn. by rewrite Ha, orb_true_r.
  - apply Hb. cbn. by rewrite bool_decide_eq_true_2.
Qed.

(** [trim] takes the white space off the two ends, and nothing else. *)
Lemma trimStart_blank s : ∃ sp, s = sp +:+ trimStart s ∧ blank sp.
Proof.
  induction s as [|c s (sp & IH & Hb)]; [by exists ""|]. cbn [trimStart].
  destruct (is_js_space c) eqn:Ec.
  - exists (String c sp). split; [by rewrite append_cons, <- IH|].
    intros a. cbn [has_char]. intros [E|Ha]%orb_true_iff; [|auto].
    apply bool_decide_eq_true in E as <-.
    rewrite is_js_space_codes in Ec. by apply bool_decide_eq_true in Ec.
  - by exists "".
Qed.

Lemma trim_spec s : trimmed_of s (trim s).
Proof.
  split; [apply trim_no_space_around|].
  destruct (trimStart_blank s) as (pre & Es & Hpre).
  destruct (trimStart_blank (String.rev (trimStart s))) as (sp & Er & Hsp).
  exists pre, (String.rev sp). split; [|split; [done|]].
  - rewrite Es at 1. f_equal. unfold trim, trimEnd.
    rewrite <- rev_append, <- Er. by rewrite rev_involutive.
  - intros a. rewrite has_char_rev. apply Hsp.
Qed.

(** ** The destination validator *)

Section ValidatorProps.
Context `{Platform}.
Variable env : ProcessEnv.

Lemma isAllowedDest_total raw : ∃ b, isAllowedDest env raw = Normal b.
Proof.
  unfold isAllowedDest. destruct (isAllowedDest_try env raw); eauto.
Qed.

Lemma isAllowedDest_true raw :
  isAllowedDest env (QStr raw) = Normal true ↔ accepted env raw.
Proof.
  unfold isAllowedDest, isAllowedDest_try, accepted, includes. cbn [ToString].
  destruct (URL_new raw) as [u|m]; last first.
  { split; [done | intros (u & ? & _); done]. }
  split.
  - intros Hok. exists u. split; [done|].
    destruct (bool_decide (protocol u ≠ "https:")) eqn:E1;
      destruct (bool_decide (protocol u ≠ "http:")) eqn:E2; simpl in Hok;
      try done.
    + apply bool_decide_eq_false in E2. apply dec_stable in E2.
      split; [by left|]. intros Hne.
      destruct (decide (length (DEST_HOST_ALLOWLIST env) = 0)) as [Hl|Hl].
      { by apply nil_length_inv in Hl. }
      injection Hok as Hok. by apply bool_decide_eq_true in Hok.
    + apply bool_decide_eq_false in E1. apply dec_stable in E1.
      split; [by right|]. intros Hne.
      destruct (decide (length (DEST_HOST_ALLOWLIST env) = 0)) as [Hl|Hl].
      { by apply nil_length_inv in Hl. }
      injection Hok as Hok. by apply bool_decide_eq_true in Hok.
    + apply bool_decide_eq_false in E1. apply dec_stable in E1.
      split; [by right|]. intros Hne.
      destruct (decide (length (DEST_HOST_ALLOWLIST env) = 0)) as [Hl|Hl].
      { by apply nil_length_inv in Hl. }
      injection Hok as Hok. by apply bool_decide_eq_true in Hok.
  - intros (u' & [= <-] & Hscheme & Hhost).
    assert (bool_decide (protocol u ≠ "https:") && bool_decide (protocol u ≠ "http:")
            = false) as ->.
    { destruct Hscheme as [-> | ->]; by vm_compute. }
    destruct (decide (length (DEST_HOST_ALLOWLIST env) = 0)) as [Hl|Hl]; [done|].
    f_equal. apply bool_decide_eq_true. apply Hhost.
    intros Hnil. by rewrite Hnil in Hl.
Qed.

(** The validator always returns a destination. *)
Lemma resolveDest_returns raw : ∃ d, resolveDest env raw = Normal d.
Proof.
  unfold resolveDest.
  destruct (isAllowedDest_total raw) as [b Hb]. rewrite Hb.
  destruct b; eauto.
Qed.

(** The two cases of the validator on a string. *)
Lemma validator_cases raw :
  (accepted env raw → resolveDest env (QStr raw) = Normal (QStr raw))
  ∧ (¬ accepted env raw →
     resolveDest env (QStr raw) = Normal (QStr "https://example.com")).
Proof.
  unfold resolveDest.
  destruct (isAllowedDest_total (QStr raw)) as [b Hb].
  pose proof (isAllowedDest_true raw) as Hiff.
  rewrite Hb in *. destruct b.
  - split; [done|]. intros Hn. destruct Hn. by apply Hiff.
  - split; [|done]. intros Ha. apply Hiff in Ha. done.
Qed.

(** C1. The validator returns the raw string when it parses as an absolute
    URL with scheme http or https and, for a non-empty allowlist, a
    lower-cased host name on the list; it returns the fallback
    ["https://example.com"] otherwise; and it never throws. *)
Theorem validator_accepts_or_falls_back raw :
  (accepted env raw → resolveDest env (QStr raw) = Normal (QStr raw))
  ∧ (¬ accepted env raw →
     resolveDest env (QStr raw) = Normal (QStr "https://example.com"))
  ∧ (∃ d, resolveDest env (QStr raw) = Normal d).
Proof.
  unfold resolveDest.
  destruct (isAllowedDest_total (QStr raw)) as [b Hb].
  pose proof (isAllowedDest_true raw) as Hiff.
  rewrite Hb in *. destruct b.
  - split; [done|]. split; [|eauto]. intros Hn. destruct Hn. by apply Hiff.
  - split; [|split; [done | eauto]].
    intros Ha. apply Hiff in Ha. done.
Qed.
End ValidatorProps.

(** ** The redirect handler *)

Section RedirectProps.
Context `{Platform}.
Variable env : ProcessEnv.

Lemma counted_lookup slug (m : gmap string nat) :
  counted slug m !! slug = Some (S (default 0 (m !! slug))).
Proof. unfold counted. apply lookup_insert_eq. Qed.

Lemma counted_other slug (m : gmap string nat) s :
  s ≠ slug → counted slug m !! s = m !! s.
Proof. intros Hne. unfold counted. by apply lookup_insert_ne. Qed.

(** The destination a request resolves to, read off its query. *)
Lemma go_resolves req d :
  resolveDest env (rawDest req) = Normal d → resolved_destination env req d.
Proof.
  unfold rawDest, resolved_destination. intros Hd. split.
  - intros s E Hs. rewrite E in Hd. cbn [js_or_value] in Hd.
    rewrite decide_False in Hd by done.
    destruct (validator_cases env s) as [Ha Hn].
    split; intros Hacc; [rewrite (Ha Hacc) in Hd | rewrite (Hn Hacc) in Hd];
      by injection Hd.
  - assert (resolveDest env (QStr "https://example.com") = Normal d →
            d = QStr "https://example.com") as Hfb.
    { unfold resolveDest.
      destruct (isAllowedDest_total env (QStr "https://example.com")) as [[] ->];
        by intros [= <-]. }
    intros [E|E]; rewrite E in Hd; apply Hfb; exact Hd.
Qed.

(** Every run of the redirect handler, by the state of the store. *)
Lemma go_handler_run slug c req w :
  ∃ d, resolveDest env (rawDest req) = Normal d ∧
  let o := go_handler env slug c req w in
  result o = Normal Handled ∧
  clicksTotal (world o) = counted slug (clicksTotal w) ∧
  killed (world o) = killed w ∧ hits (world o) = hits w ∧
  match pool env, db_fault c with
  | false, _ =>
      acts o = [CounterInc slug; Redirect 302 d] ∧ clicks (world o) = clicks w
      ∧ clicks_id_seq (world o) = clicks_id_seq w
  | true, Some m =>
      acts o = [Awaited insert_text (db_latency c) (Some m);
                ConsoleError "insert fail:" m; CounterInc slug; Redirect 302 d]
      ∧ clicks (world o) = clicks w
      ∧ clicks_id_seq (world o) = clicks_id_seq w
  | true, None =>
      acts o = [Awaited insert_text (db_latency c) None;
                CounterInc slug; Redirect 302 d]
      ∧ clicks (world o) =
          clicks w ++ [{| id := S (clicks_id_seq w); ts := now c; slug := slug;
                          dest := pg_text d; c_ip := client_ip req;
                          ua := js_or (req_get req "user-agent") "" |}]
      ∧ clicks_id_seq (world o) = S (clicks_id_seq w)
  end.
Proof.
  destruct (resolveDest_returns env (rawDest req)) as [d Hd].
  exists d. split; [done|].
  unfold go_handler. rewrite Hd.
  destruct (pool env); [destruct (db_fault c) as [m|] eqn:Hf|];
    cbn; unfold pool_query; rewrite ?Hf; cbn; done.
Qed.

(** C4. When the store rejects the insert, the handler catches the error and
    reports it on the console, makes no second attempt, lets no exception
    out, still increments the counter of the slug by one (and no other
    counter), and still answers 302 with the resolved destination. *)
Theorem insert_failure_is_absorbed slug c req w m :
  pool env = true → db_fault c = Some m →
  ∃ d, resolveDest env (rawDest req) = Normal d
  ∧ resolved_destination env req d ∧
  let o := go_handler env slug c req w in
  let insert :=
    Awaited "INSERT INTO clicks (slug, dest, ip, ua) VALUES ($1,$2,$3,$4)"
      (db_latency c) in
  result o = Normal Handled
  ∧ acts o = [insert (Some m); ConsoleError "insert fail:" m;
              CounterInc slug; Redirect 302 d]
  ∧ clicksTotal (world o) !! slug = Some (S (default 0 (clicksTotal w !! slug)))
  ∧ (∀ s, s ≠ slug → clicksTotal (world o) !! s = clicksTotal w !! s)
  ∧ clicks (world o) = clicks w.
Proof.
  intros Hp Hf.
  destruct (go_handler_run slug c req w) as (d & Hd & Hr & Hc & _ & _ & Hm).
  rewrite Hp, Hf in Hm. destruct Hm as (Ha & Hk & _).
  exists d. cbn zeta. split; [done|]. split; [by apply go_resolves|].
  split; [done|]. split; [done|]. rewrite Hc.
  split; [apply counted_lookup|]. split; [|done].
  intros s Hs. by apply counted_other.
Qed.

(** C2, as the handler has it. The insert is awaited inside the [try]: when a
    pool is configured the handler's first call is the awaited insert, and
    only after it has settled (and, if it was rejected, after the error is
    logged) does the handler increment the counter and then respond, so
    the response is later by the time the insert takes to settle; without
    a pool nothing is awaited. In every case the response is the redirect
    to the resolved destination, whatever the insert's outcome. *)
Theorem insert_is_awaited_before_redirect slug c req w :
  let o := go_handler env slug c req w in
  let insert :=
    Awaited "INSERT INTO clicks (slug, dest, ip, ua) VALUES ($1,$2,$3,$4)"
      (db_latency c) in
  (∃ d, resolveDest env (rawDest req) = Normal d
        ∧ resolved_destination env req d
        ∧ response_of (acts o) = Some (Redirect 302 d)
        ∧ (pool env = true →
           acts o = insert (db_fault c)
                    :: match db_fault c with
                       | Some m => [ConsoleError "insert fail:" m]
                       | None => []
                       end ++ [CounterInc slug; Redirect 302 d])
        ∧ (pool env = false → acts o = [CounterInc slug; Redirect 302 d]))
  ∧ (pool env = true →
     awaited_before_response (acts o) = true
     ∧ response_delay (acts o) = db_latency c)
  ∧ (pool env = false → fire_and_forget env slug c req w).
Proof.
  destruct (go_handler_run slug c req w) as (d & Hd & Hr & Hc & _ & _ & Hm).
  pose proof (go_resolves req d Hd) as Hres.
  cbn zeta. unfold fire_and_forget.
  destruct (pool env); [destruct (db_fault c)|]; destruct Hm as (-> & _ & _);
    (split; [exists d; repeat (split; [done|]); done|]); split; intros Hp;
    try done; cbn; (split; [done | lia]).
Qed.
End RedirectProps.

(** ** Running without a store *)

Section NoStoreProps.
Context `{Platform}.
Variable env : ProcessEnv.

Lemma pool_off : DATABASE_URL env = "" → pool env = false.
Proof. intros E. unfold pool. rewrite E. done. Qed.

(** The first variant reaches [app.listen] exactly when the awaited
    [CREATE TABLE] is fulfilled; a rejection leaves the module as an
    exception. *)
Lemma V1_startup_listens c w :
  (listening (acts (V1.startup env c w)) ↔ db_fault c = None)
  ∧ (∀ m, db_fault c = Some m → result (V1.startup env c w) = Throw m).
Proof.
  unfold listening, V1.startup, bind, pool_query, emit.
  destruct (db_fault c) as [m|]; cbn.
  - split; [|by intros ? [= <-]].
    split; [|done]. intros [p Hp]. apply list_elem_of_singleton in Hp. done.
  - split; [|done]. split; [done|]. intros _. exists (js_or (PORT env) "3000").
    set_solver.
Qed.

(** C5, for the hardened variant. With [DATABASE_URL] unset or empty the
    module evaluates without an exception, warns, reaches [app.listen] and
    logs the port, and every run of the redirect handler skips the insert,
    leaves the table as it is, increments the counter of the slug by one
    and answers 302 with the resolved destination. The first variant has
    no such provision: it reaches [app.listen] only when its awaited
    [CREATE TABLE] is fulfilled, and throws otherwise. *)
Theorem without_store_still_redirects slug c c1 c2 c3 req w :
  DATABASE_URL env = "" →
  (let s := startup env c1 c2 c3 w in
   result s = Normal tt
   ∧ acts s = [ConsoleWarn "No DATABASE_URL set. Logging disabled.";
               Listen (port env);
               ConsoleLog ("Tiny FOB v2 running on port " +:+ port env)]
   ∧ listening (acts s)
   ∧ world s = w)
  ∧ (∃ d, resolveDest env (rawDest req) = Normal d
     ∧ resolved_destination env req d ∧
     let o := go_handler env slug c req w in
     result o = Normal Handled
     ∧ acts o = [CounterInc slug; Redirect 302 d]
     ∧ clicks (world o) = clicks w
     ∧ clicksTotal (world o) !! slug = Some (S (default 0 (clicksTotal w !! slug)))
     ∧ (∀ s, s ≠ slug → clicksTotal (world o) !! s = clicksTotal w !! s))
  ∧ (listening (acts (V1.startup env c w)) ↔ db_fault c = None)
  ∧ (∀ m, db_fault c = Some m → result (V1.startup env c w) = Throw m).
Proof.
  intros E. apply pool_off in E.
  split; [|split; [|apply V1_startup_listens]].
  - unfold startup. rewrite E. cbn. repeat split.
    exists (port env). set_solver.
  - destruct (go_handler_run env slug c req w) as (d & Hd & Hr & Hc & _ & _ & Hm).
    rewrite E in Hm. destruct Hm as (Ha & Hk & _). exists d. cbn zeta.
    split; [done|]. split; [by apply go_resolves|].
    split; [done|]. split; [done|]. split; [done|]. rewrite Hc.
    split; [apply counted_lookup|]. intros s Hs. by apply counted_other.
Qed.
End NoStoreProps.

(** ** The shared secret *)

(** C10. With [FOB_ADMIN_PASS] unset the hardened variant compares the header
    with the literal ["testpass"], so a request that presents it is
    authorised; the first variant compares the header with the unset
    variable, so a request without the header is authorised. *)
Theorem admin_secret_unset (env : ProcessEnv) (req : Request) :
  FOB_ADMIN_PASS env = None →
  ADMIN env = "testpass"
  ∧ (adminOK env req = true ↔ req_get req "x-admin-pass" = Some "testpass")
  ∧ (V1.adminOK env req = true ↔ req_get req "x-admin-pass" = None).
Proof.
  intros E. unfold adminOK, V1.adminOK, ADMIN. rewrite E. cbn.
  split; [done|]. split; apply bool_decide_eq_true.
Qed.

(** ** The reports *)

Global Instance id_desc_trans : Transitive id_desc.
Proof. intros a b c. unfold id_desc. lia. Qed.
Global Instance id_desc_total : Total id_desc.
Proof. intros a b. unfold id_desc. lia. Qed.
Global Instance id_asc_trans : Transitive id_asc.
Proof. intros a b c. unfold id_asc. lia. Qed.
Global Instance id_asc_total : Total id_asc.
Proof. intros a b. unfold id_asc. lia. Qed.

Lemma substring0_length n s :
  String.length (String.substring 0 n s) = min n (String.length s).
Proof.
  revert s. induction n as [|n IH]; intros [|a s]; cbn; try lia.
  specialize (IH s). lia.
Qed.

Lemma substring0_split n s : ∃ rest, s = String.substring 0 n s +:+ rest.
Proof.
  revert s. induction n as [|n IH]; intros s.
  - exists s. by destruct s.
  - destruct s as [|a s]; [by exists ""|].
    destruct (IH s) as [rest E]. exists rest. cbn. by rewrite append_cons, <- E.
Qed.

Lemma substring0_all n s : String.length s ≤ n → String.substring 0 n s = s.
Proof.
  revert s. induction n as [|n IH]; intros [|a s]; cbn; try done; try lia.
  intros Hl. f_equal. apply IH. lia.
Qed.

Lemma substring0_prefix n s : String.prefix (String.substring 0 n s) s = true.
Proof.
  revert s. induction n as [|n IH]; intros [|a s]; cbn; try done.
  destruct (Ascii.ascii_dec a a); [apply IH | done].
Qed.

(** Case analysis on membership in an explicit list of calls. *)
Ltac sent_in Hin :=
  rewrite !elem_of_cons, elem_of_nil in Hin;
  repeat (destruct Hin as [Hin|Hin]); try done; try (by simplify_eq).

Section ReportProps.
Context `{Platform}.
Variable env : ProcessEnv.

(** C8. [/admin/last] answers 403 and does nothing else when the header does
    not match. Otherwise it never returns more than five rows, and when the
    query is fulfilled the rows are the first five (or all, if fewer) of the
    table in descending order of [id], each with [ts], [slug] and the first
    60 characters of [dest]: all of [dest] when it has no more than 60. *)
Theorem admin_last_recent_five c req w :
  let o := admin_last env c req w in
  let select :=
    Awaited
      "SELECT ts, slug, left(dest, 60) AS dest FROM clicks ORDER BY id DESC LIMIT 5"
      (db_latency c) in
  result o = Normal Handled ∧ world o = w
  ∧ (adminOK env req = false → acts o = [Send 403 (Text "forbidden")])
  ∧ (adminOK env req = true →
     (∀ s rows, Send s (JsonRows rows) ∈ acts o → length rows ≤ 5)
     ∧ (pool env = true → db_fault c = None →
        ∃ top rest,
          top ++ rest ≡ₚ clicks w
          ∧ StronglySorted id_desc (top ++ rest)
          ∧ length top = min 5 (length (clicks w))
          ∧ acts o = [select None; Send 200 (JsonRows (last_row <$> top))])
     ∧ (pool env = true → ∀ m, db_fault c = Some m →
        acts o = [select (Some m); Send 500 (JsonError m)])
     ∧ (pool env = false → acts o = [Send 200 (JsonRows [])]))
  ∧ (∀ r, l_ts (last_row r) = ts r ∧ l_slug (last_row r) = slug r
          ∧ String.length (l_dest (last_row r)) = min 60 (String.length (dest r))
          ∧ String.prefix (l_dest (last_row r)) (dest r) = true
          ∧ (String.length (dest r) ≤ 60 → l_dest (last_row r) = dest r)).
Proof.
  cbn zeta. unfold admin_last.
  assert (∀ r, l_ts (last_row r) = ts r ∧ l_slug (last_row r) = slug r
          ∧ String.length (l_dest (last_row r)) = min 60 (String.length (dest r))
          ∧ String.prefix (l_dest (last_row r)) (dest r) = true
          ∧ (String.length (dest r) ≤ 60 → l_dest (last_row r) = dest r)) as Hrow.
  { intros r. repeat split.
    - apply substring0_length.
    - apply substring0_prefix.
    - apply substring0_all. }
  destruct (adminOK env req) eqn:Hok; cbn.
  2:{ repeat split; try done; apply Hrow. }
  destruct (pool env); [destruct (db_fault c) as [m|] eqn:Hf|];
    unfold try_catch, bind, pool_query; rewrite ?Hf; cbn;
    repeat (split; [done|]); (split; [intros _|exact Hrow]);
    (split; [|split; [|split]]); try done.
  - intros s rows Hin. sent_in Hin.
  - by intros _ m' [= <-].
  - intros s rows Hin.
    assert (rows = last_row <$> take 5 (merge_sort id_desc (clicks w))) as ->.
    { sent_in Hin. }
    rewrite length_fmap, length_take. lia.
  - intros _ _.
    exists (take 5 (merge_sort id_desc (clicks w))),
           (drop 5 (merge_sort id_desc (clicks w))).
    rewrite take_drop. repeat split.
    + apply merge_sort_Permutation.
    + apply StronglySorted_merge_sort; apply _.
    + rewrite length_take.
      by rewrite (Permutation_length (merge_sort_Permutation id_desc (clicks w))).
  - intros s rows Hin.
    assert (rows = []) as ->.
    { sent_in Hin. }
    cbn. lia.
Qed.

(** The day of l.309, when the parameter is a string or missing. *)
Lemma export_day_of_string c req (o : option string) :
  query req !! "day" = QStr <$> o →
  export_day_of c req = Normal (trim (js_or o (slice0 10 (toISOString (now c))))).
Proof.
  intros E. unfold export_day_of. rewrite E.
  destruct o as [s|]; cbn; [|done]. by destruct (decide (s = "")).
Qed.

(** An array or an object has no [trim]. *)
Lemma export_day_of_other c req v :
  query req !! "day" = Some v → (∀ s, v ≠ QStr s) →
  ∃ m, export_day_of c req = Throw m.
Proof.
  intros E Hv. unfold export_day_of. rewrite E.
  destruct v as [s| |]; [by destruct (Hv s)|..]; cbn; eauto.
Qed.

(** Every run of an authorised [/admin/export/day] that gets past l.309. *)
Lemma admin_export_day_run c req w day :
  adminOK env req = true → export_day_of c req = Normal day →
  let o := admin_export_day env c req w in
  let sent rows pre :=
    match Parser_parse rows with
    | Normal csv =>
        acts o = pre ++ [SetHeader "Content-Type" "text/csv";
                         SetHeader "Content-Disposition"
                           ("attachment; filename=clicks_" +:+ day +:+ ".csv");
                         Send 200 (Csv csv)]
    | Throw m => acts o = pre ++ [Send 500 (Text ("export error: " +:+ m))]
    end in
  result o = Normal Handled ∧ world o = w
  ∧ match pool env, db_fault c with
    | false, _ => sent [] []
    | true, Some m =>
        acts o = [Awaited day_text (db_latency c) (Some m);
                  Send 500 (Text ("export error: " +:+ m))]
    | true, None =>
        match pg_date_of_text day with
        | Throw m =>
            acts o = [Awaited day_text (db_latency c) (Some m);
                      Send 500 (Text ("export error: " +:+ m))]
        | Normal d =>
            sent (merge_sort id_asc (filter (λ r, pg_date_of_ts (ts r) = d) (clicks w)))
                 [Awaited day_text (db_latency c) None]
        end
    end.
Proof.
  intros Hok Hday. cbn zeta. unfold admin_export_day. rewrite Hok, Hday.
  cbn [negb lift]. erewrite bind_normal by reflexivity. rewrite after_calls_nil.
  destruct (pool env); [destruct (db_fault c) as [m|] eqn:Hf|].
  - unfold bind, try_catch, pool_query. rewrite Hf. done.
  - unfold bind, try_catch, pool_query, sql_day. rewrite Hf.
    destruct (pg_date_of_text day) as [d|m]; [|done].
    cbn [lift].
    destruct (Parser_parse _) as [csv|m]; done.
  - unfold bind, try_catch. cbn [ret lift].
    destruct (Parser_parse []) as [csv|m]; done.
Qed.

(** An authorised [/admin/export/day] whose [day] is an array or an object
    throws at l.309, before the [try], having called nothing. *)
Lemma admin_export_day_throws c req w v :
  adminOK env req = true →
  query req !! "day" = Some v → (∀ s, v ≠ QStr s) →
  ∃ m, admin_export_day env c req w
       = {| acts := []; result := Throw m; world := w |}.
Proof.
  intros Hok E Hv. destruct (export_day_of_other c req v E Hv) as [m Hm].
  exists m. unfold admin_export_day. rewrite Hok, Hm. reflexivity.
Qed.

End ReportProps.

(** ** The router *)

Section RouterProps.
Context `{Platform}.
Variable env : ProcessEnv.

Lemma set_headers_run (l : list (string * string)) w :
  foldr (λ h k, exec emit (SetHeader h.1 h.2) in k) (ret tt) l w
  = {| acts := (λ h, SetHeader h.1 h.2) <$> l; result := Normal tt; world := w |}.
Proof.
  induction l as [|h l IH]; [done|].
  cbn [foldr]. unfold bind at 1. cbn. by rewrite IH.
Qed.

Lemma helmet_run c req w :
  helmet c req w = {| acts := helmet_calls; result := Normal Next; world := w |}.
Proof.
  unfold helmet. erewrite bind_normal by apply set_headers_run.
  cbn. by rewrite app_nil_r.
Qed.

Lemma dispatch_route m pattern fn rest c req :
  dispatch (Route m pattern fn :: rest) c req
  = match match_route pattern (path req) with
    | NoMatch => dispatch rest c req
    | BadParam _ => exec emit (Send 400 (Text "Bad Request")) in ret Handled
    | Params ps =>
        if method_matches m (req_method req)
        then let* f := fn ps c req in
             match f with Next => dispatch rest c req | Handled => ret Handled end
        else dispatch rest c req
    end.
Proof. reflexivity. Qed.

Lemma dispatch_use_all fn rest c req :
  dispatch (Use None fn :: rest) c req
  = let* f := fn c req in
    match f with Next => dispatch rest c req | Handled => ret Handled end.
Proof. reflexivity. Qed.

Lemma dispatch_use_mount mount fn rest c req :
  dispatch (Use (Some mount) fn :: rest) c req
  = if mounted mount (path req)
    then let* f := fn c req in
         match f with Next => dispatch rest c req | Handled => ret Handled end
    else dispatch rest c req.
Proof. reflexivity. Qed.

(** A layer that only calls [next()] can be taken out of the stack. *)
Lemma dispatch_skip_use (fn : Ctx → Request → M Flow) before rest c req :
  (∀ w, fn c req w = ret Next w) →
  ∀ w, dispatch (before ++ Use None fn :: rest) c req w
       = dispatch (before ++ rest) c req w.
Proof.
  intros Hfn. induction before as [|layer before IH]; intros w.
  - cbn [List.app dispatch]. erewrite bind_normal by apply Hfn.
    apply after_calls_nil.
  - cbn [List.app dispatch]. destruct layer as [mount fn'|m pattern fn'].
    + destruct (match mount with None => true | Some m => mounted m (path req) end);
        [|apply IH].
      unfold bind. destruct (fn' c req w) as [a [[|]|e] w1]; [|done|done].
      by rewrite IH.
    + destruct (match_route pattern (path req)); [apply IH|done|].
      destruct (method_matches m (req_method req)); [|apply IH].
      unfold bind. destruct (fn' ps c req w) as [a [[|]|e] w1]; [|done|done].
      by rewrite IH.
Qed.

(** The pattern [/status] has no parameter. *)
Lemma status_route_cases p :
  match_route "/status" p = NoMatch ∨ match_route "/status" p = Params ∅.
Proof.
  unfold match_route.
  change (segments "/status") with [""; "status"].
  destruct (segments p) as [|a [|b [|x l]]]; cbn; auto;
    repeat (case_decide; cbn; auto).
Qed.

Lemma not_status_request req :
  status_request req = false →
  match_route "/status" (path req) = NoMatch
  ∨ (match_route "/status" (path req) = Params ∅
     ∧ method_matches GET (req_method req) = false).
Proof.
  unfold status_request.
  destruct (status_route_cases (path req)) as [-> | ->]; auto.
Qed.
End RouterProps.

(** ** The kill switch *)

Section KillSwitchProps.
Context `{Platform}.
Variable env : ProcessEnv.

Lemma response_after_helmet (l : list action) :
  response_of (helmet_calls ++ l) = response_of l.
Proof.
  unfold response_of, helmet_calls. rewrite filter_app.
  induction helmet_headers as [|h hs IH]; [done|].
  cbn [fmap list_fmap]. rewrite filter_cons_False by (cbn; done). apply IH.
Qed.

(** Every request first goes through [helmet] and [cors]. *)
Lemma handle_prefix c req w :
  handle env c req w
  = after_calls helmet_calls
      (dispatch (Route GET "/status" (λ _, status_handler env)
                 :: Use None kill_switch :: after_kill_switch env) c req w).
Proof.
  unfold handle, app, before_kill_switch. cbn [List.app dispatch].
  erewrite bind_normal by apply helmet_run. f_equal.
  unfold cors. erewrite bind_normal by reflexivity.
  apply after_calls_nil.
Qed.

Lemma kill_switch_admin c req w :
  startsWith (path req) "/admin" = true → kill_switch c req w = ret Next w.
Proof.
  intros E. unfold kill_switch. erewrite bind_normal by reflexivity.
  rewrite E, andb_false_r. apply after_calls_nil.
Qed.

Lemma kill_switch_blocks c req w :
  is_killed w = true → startsWith (path req) "/admin" = false →
  kill_switch c req w
  = {| acts := [Send 503 (Text "Service unavailable")];
       result := Normal Handled; world := w |}.
Proof.
  intros Ek E. unfold kill_switch. erewrite bind_normal by reflexivity.
  rewrite Ek, E. reflexivity.
Qed.

(** Every run of the [/status] handler. *)
Lemma status_handler_run c req w :
  ∃ a b, status_handler env c req w
         = {| acts := a ++ [Send 200 b]; result := Normal Handled; world := w |}
         ∧ response_of (a ++ [Send 200 b]) = Some (Send 200 b)
         ∧ (pool env = true → a = [Awaited "SELECT count(*)::int AS c FROM clicks"
                                     (db_latency c) (db_fault c)]).
Proof.
  unfold status_handler.
  destruct (pool env); [destruct (db_fault c) as [m|] eqn:Hf|].
  - exists [Awaited "SELECT count(*)::int AS c FROM clicks" (db_latency c) (Some m)],
           (JsonNotOk m).
    unfold bind, try_catch, pool_query. rewrite Hf. done.
  - exists [Awaited "SELECT count(*)::int AS c FROM clicks" (db_latency c) None],
           (JsonStatus (toISOString (now c)) (length (clicks w))).
    unfold bind, try_catch, pool_query. rewrite Hf. done.
  - exists [], (JsonStatus (toISOString (now c)) 0). done.
Qed.

(** C3, as the stack has it. While the switch is engaged: a request whose
    path does not start with [/admin] and which the [/status] route does not
    answer gets 503 and changes nothing; a request whose path starts with
    [/admin] is handled as if the switch were not in the stack; and a
    request the [/status] route answers gets its 200 from that route, which
    is registered ahead of the switch. *)
Theorem kill_switch_gate c req w :
  is_killed w = true →
  (startsWith (path req) "/admin" = false → status_request req = false →
   let o := handle env c req w in
   acts o = helmet_calls ++ [Send 503 (Text "Service unavailable")]
   ∧ result o = Normal Handled
   ∧ refused_503 env c req w)
  ∧ (startsWith (path req) "/admin" = true →
     handle env c req w
     = dispatch (before_kill_switch env ++ after_kill_switch env) c req w)
  ∧ (status_request req = true →
     let o := handle env c req w in
     ∃ b, response_of (acts o) = Some (Send 200 b) ∧ world o = w
          ∧ acts o = helmet_calls ++ acts (status_handler env c req w)).
Proof.
  intros Hk. split; [|split].
  - intros Hp Hs. cbn zeta. unfold refused_503.
    rewrite handle_prefix, dispatch_route.
    assert (dispatch (Use None kill_switch :: after_kill_switch env) c req w
            = {| acts := [Send 503 (Text "Service unavailable")];
                 result := Normal Handled; world := w |}) as Hgate.
    { rewrite dispatch_use_all. erewrite bind_normal by by apply kill_switch_blocks.
      cbn. done. }
    destruct (not_status_request req Hs) as [-> | [-> ->]];
      rewrite Hgate; cbn; rewrite response_after_helmet; done.
  - intros Hp. unfold handle, app.
    apply dispatch_skip_use. intros w'. by apply kill_switch_admin.
  - intros Hs. cbn zeta. rewrite handle_prefix, dispatch_route.
    unfold status_request in Hs.
    destruct (match_route "/status" (path req)); try done. rewrite Hs.
    destruct (status_handler_run c req w) as (a & b & E & Hr & _).
    erewrite bind_normal by apply E. rewrite E. cbn.
    exists b. rewrite app_nil_r, response_after_helmet. done.
Qed.
End KillSwitchProps.

Section KillTransitions.
Context `{Platform}.
Variable env : ProcessEnv.

(** An authorised [POST /admin/kill], through the whole stack. *)
Lemma handle_kill c req w :
  req_method req = POST → path req = "/admin/kill" → adminOK env req = true →
  handle env c req w
  = {| acts := helmet_calls ++ [Send 200 (Text "killed")];
       result := Normal Handled; world := set_killed (Some true) w |}.
Proof.
  intros Hm Hp Hok. rewrite handle_prefix, dispatch_route, Hp.
  assert (match_route "/status" "/admin/kill" = NoMatch) as -> by reflexivity.
  rewrite dispatch_use_all.
  erewrite bind_normal by (apply kill_switch_admin; by rewrite Hp).
  rewrite after_calls_nil. unfold after_kill_switch.
  rewrite dispatch_route, Hp, Hm.
  assert (match_route "/admin/kill" "/admin/kill" = Params ∅) as -> by reflexivity.
  cbn [method_matches bool_decide decide_rel orb]. unfold admin_kill. rewrite Hok.
  reflexivity.
Qed.

(** An authorised [POST /admin/unkill], through the whole stack. *)
Lemma handle_unkill c req w :
  req_method req = POST → path req = "/admin/unkill" → adminOK env req = true →
  handle env c req w
  = {| acts := helmet_calls ++ [Send 200 (Text "un-killed")];
       result := Normal Handled; world := set_killed (Some false) w |}.
Proof.
  intros Hm Hp Hok. rewrite handle_prefix, dispatch_route, Hp.
  assert (match_route "/status" "/admin/unkill" = NoMatch) as -> by reflexivity.
  rewrite dispatch_use_all.
  erewrite bind_normal by (apply kill_switch_admin; by rewrite Hp).
  rewrite after_calls_nil. unfold after_kill_switch.
  rewrite dispatch_route, Hp.
  assert (match_route "/admin/kill" "/admin/unkill" = NoMatch) as -> by reflexivity.
  rewrite dispatch_route, Hp, Hm.
  assert (match_route "/admin/unkill" "/admin/unkill" = Params ∅) as -> by reflexivity.
  cbn [method_matches bool_decide decide_rel orb]. unfold admin_unkill. rewrite Hok.
  reflexivity.
Qed.

(** C7. The switch starts live. An authorised kill is answered ["killed"]
    and leaves the switch engaged whatever its state was, and a second kill
    changes nothing; an authorised unkill is answered ["un-killed"] and
    leaves the switch live whatever its state was, and a second unkill
    changes nothing. *)
Theorem kill_unkill_idempotent c req w :
  req_method req = POST → adminOK env req = true →
  is_killed initial_world = false
  ∧ (path req = "/admin/kill" →
     let o := handle env c req w in
     result o = Normal Handled
     ∧ response_of (acts o) = Some (Send 200 (Text "killed"))
     ∧ world o = set_killed (Some true) w
     ∧ is_killed (world o) = true
     ∧ world (handle env c req (world o)) = world o)
  ∧ (path req = "/admin/unkill" →
     let o := handle env c req w in
     result o = Normal Handled
     ∧ response_of (acts o) = Some (Send 200 (Text "un-killed"))
     ∧ world o = set_killed (Some false) w
     ∧ is_killed (world o) = false
     ∧ world (handle env c req (world o)) = world o).
Proof.
  intros Hm Hok. split; [done|]. split; intros Hp; cbn zeta.
  - rewrite !handle_kill by done. cbn [acts result world].
    rewrite response_after_helmet. done.
  - rewrite !handle_unkill by done. cbn [acts result world].
    rewrite response_after_helmet. done.
Qed.
End KillTransitions.

(** ** Paths and routes *)

Section RedirectRoute.
Context `{Platform}.
Variable env : ProcessEnv.

(** What a path that the redirect route matches looks like. *)
Lemma go_route_shape p ps :
  match_route "/go/:slug" p = Params ps →
  ∃ b x v, segments p = [""; b; x] ∧ toLowerCase b = "go" ∧ x ≠ ""
           ∧ decode_param x = Normal v ∧ ps = <["slug" := v]> ∅.
Proof.
  unfold match_route.
  change (segments "/go/:slug") with [""; "go"; ":slug"].
  destruct (segments p) as [|a [|b [|x [|y l]]]]; cbn; try done;
    repeat (case_decide; cbn; try done).
  destruct (decode_param x) as [v|m] eqn:Hv; [|done].
  intros [= <-]. exists b, x, v.
  rewrite (toLowerCase_empty a) by done. done.
Qed.

Lemma go_route_mounted p ps :
  match_route "/go/:slug" p = Params ps → mounted "/go" p = true.
Proof.
  intros (b & x & v & Hseg & Hb & _)%go_route_shape.
  unfold segments in Hseg. apply split_three in Hseg.
  unfold mounted. apply orb_true_iff. right.
  assert (toLowerCase (drop_trailing_slash p) = "/go/" +:+ toLowerCase x) as E.
  { rewrite Hseg, append_nil_l. cbn [toLowerCase].
    rewrite toLowerCase_append, Hb. reflexivity. }
  change (toLowerCase "/go" +:+ "/") with "/go/". unfold startsWith.
  destruct (drop_trailing_slash_cases p) as [-> | ->].
  - rewrite E. apply prefix_append.
  - rewrite toLowerCase_append, E, append_assoc. apply prefix_append.
Qed.

Lemma go_route_only p ps :
  match_route "/go/:slug" p = Params ps →
  match_route "/status" p = NoMatch
  ∧ match_route "/admin/kill" p = NoMatch
  ∧ match_route "/admin/unkill" p = NoMatch
  ∧ match_route "/" p = NoMatch.
Proof.
  intros (b & x & v & Hseg & Hb & _)%go_route_shape.
  unfold match_route. rewrite Hseg.
  change (segments "/status") with [""; "status"].
  change (segments "/admin/kill") with [""; "admin"; "kill"].
  change (segments "/admin/unkill") with [""; "admin"; "unkill"].
  change (segments "/") with [""].
  cbn. rewrite Hb. repeat split; repeat (case_decide; cbn; try done).
Qed.
End RedirectRoute.

(** ** The rate limiter *)

Section RateLimitProps.
Context `{Platform}.
Variable env : ProcessEnv.

Lemma goLimiter_run c req w :
  let e := next_entry goOptions c (hits w !! keyGenerator req) in
  let w1 := set_hits (<[keyGenerator req := e]>) w in
  goLimiter c req w
  = if 120 <? e.2
    then {| acts := limiter_rejection c e; result := Normal Handled; world := w1 |}
    else {| acts := limiter_calls c e; result := Normal Next; world := w1 |}.
Proof.
  cbn zeta. unfold goLimiter, rateLimit.
  erewrite bind_normal by reflexivity. rewrite after_calls_nil.
  set (e := next_entry goOptions c (hits w !! keyGenerator req)).
  erewrite bind_normal by reflexivity. rewrite after_calls_nil.
  cbn [standardHeaders legacyHeaders goOptions max].
  assert (pretty 120 = "120") as -> by (by vm_compute).
  destruct (120 <? e.2); reflexivity.
Qed.

Lemma go_response slug c req w :
  ∃ d, response_of (acts (go_handler env slug c req w)) = Some (Redirect 302 d).
Proof.
  destruct (go_handler_run env slug c req w) as (d & _ & _ & _ & _ & _ & Hm).
  exists d. destruct (pool env); [destruct (db_fault c)|]; destruct Hm as [-> _]; done.
Qed.

(** A redirect request on a live switch, through the whole stack: the
    limiter counts it, and either rejects it or hands it to the handler. *)
Lemma handle_redirect c req slug w :
  redirect_request req slug → is_killed w = false →
  let e := next_entry goOptions c (hits w !! keyGenerator req) in
  let w1 := set_hits (<[keyGenerator req := e]>) w in
  handle env c req w
  = if 120 <? e.2
    then {| acts := helmet_calls ++ limiter_rejection c e;
            result := Normal Handled; world := w1 |}
    else after_calls (helmet_calls ++ limiter_calls c e) (go_handler env slug c req w1).
Proof.
  intros [Hm (ps & Hps & Hslug)] Hk. cbn zeta.
  destruct (go_route_only _ _ Hps) as (E1 & E2 & E3 & E4).
  rewrite handle_prefix, dispatch_route, E1, dispatch_use_all.
  assert (kill_switch c req w = ret Next w) as Hgate.
  { unfold kill_switch. erewrite bind_normal by reflexivity. by rewrite Hk. }
  erewrite bind_normal by apply Hgate. rewrite after_calls_nil.
  unfold after_kill_switch.
  rewrite dispatch_route, E2, dispatch_route, E3, dispatch_route, E4.
  rewrite dispatch_use_mount, (go_route_mounted _ _ Hps).
  unfold bind at 1. rewrite goLimiter_run.
  destruct (120 <? _); [done|]. cbn [after_calls].
  rewrite dispatch_route, Hps.
  assert (method_matches GET (req_method req) = true) as ->.
  { by destruct Hm as [-> | ->]. }
  rewrite Hslug. unfold bind.
  destruct (go_handler_run env slug c req
              (set_hits (<[keyGenerator req :=
                 next_entry goOptions c (hits w !! keyGenerator req)]>) w))
    as (d & _ & Hr & _).
  destruct (go_handler env slug c req _) as [a r w2]. cbn in Hr. subst r.
  cbn. rewrite app_nil_r, <- app_assoc. reflexivity.
Qed.
End RateLimitProps.

(** *** Handlers that leave the limiter's store alone *)

Lemma hits_kept_ret {A} (a : A) : hits_kept (ret a).
Proof. done. Qed.

Lemma hits_kept_emit a : hits_kept (emit a).
Proof. done. Qed.

Lemma hits_kept_get : hits_kept get.
Proof. done. Qed.

Lemma hits_kept_lift {A} (c : completion A) : hits_kept (lift c).
Proof. by destruct c. Qed.

Lemma hits_kept_set_killed b : hits_kept (modify (set_killed b)).
Proof. done. Qed.

Lemma hits_kept_inc slug : hits_kept (clicksTotal_inc slug).
Proof. done. Qed.

Lemma hits_kept_bind {A B} (m : M A) (k : A → M B) :
  hits_kept m → (∀ x, hits_kept (k x)) → hits_kept (bind m k).
Proof.
  intros Hm Hk w. unfold bind. specialize (Hm w).
  destruct (m w) as [a [x|e] w1]; cbn in Hm; [|done].
  by rewrite after_calls_world, Hk.
Qed.

Lemma hits_kept_try_catch {A} (m : M A) (h : string → M A) :
  hits_kept m → (∀ e, hits_kept (h e)) → hits_kept (try_catch m h).
Proof.
  intros Hm Hh w. unfold try_catch. specialize (Hm w).
  destruct (m w) as [a [x|e] w1]; cbn in Hm; [done|].
  by rewrite after_calls_world, Hh.
Qed.

Lemma hits_kept_pool_query {A} c sql (run : World → completion (A * World)) :
  (∀ w a w', run w = Normal (a, w') → hits w' = hits w) →
  hits_kept (pool_query c sql run).
Proof.
  intros Hrun w. unfold pool_query. destruct (db_fault c); [done|].
  destruct (run w) as [[a w']|m] eqn:E; [|done]. cbn. eauto.
Qed.

Lemma hits_kept_if {A} (b : bool) (m1 m2 : M A) :
  hits_kept m1 → hits_kept m2 → hits_kept (if b then m1 else m2).
Proof. by destruct b. Qed.

Create HintDb frame.
#[local] Hint Resolve hits_kept_ret hits_kept_emit hits_kept_get hits_kept_lift
  hits_kept_set_killed hits_kept_inc hits_kept_bind hits_kept_try_catch
  hits_kept_if : frame.

(** Walks a handler's body down to its store accesses. *)
Ltac frame :=
  repeat match goal with
         | |- ∀ _, hits_kept _ => intros ?
         | |- hits_kept (bind _ _) => apply hits_kept_bind
         | |- hits_kept (try_catch _ _) => apply hits_kept_try_catch
         | |- hits_kept (if _ then _ else _) => apply hits_kept_if
         | |- hits_kept _ => solve [auto with frame]
         end.

Section FrameProps.
Context `{Platform}.
Variable env : ProcessEnv.

Lemma hits_kept_select {A} c sql (f : World → A) :
  hits_kept (pool_query c sql (λ w, Normal (f w, w))).
Proof. apply hits_kept_pool_query. by intros w a w' [= _ <-]. Qed.

Lemma hits_kept_status c req : hits_kept (status_handler env c req).
Proof.
  unfold status_handler.
  frame.
  apply (hits_kept_select c _ (λ w, length (clicks w))).
Qed.

Lemma hits_kept_kill_switch c req : hits_kept (kill_switch c req).
Proof.
  unfold kill_switch. frame.
Qed.

Lemma hits_kept_admin_kill c req : hits_kept (admin_kill env c req).
Proof. unfold admin_kill. frame. Qed.

Lemma hits_kept_admin_unkill c req : hits_kept (admin_unkill env c req).
Proof. unfold admin_unkill. frame. Qed.

Lemma hits_kept_go slug c req : hits_kept (go_handler env slug c req).
Proof.
  intros w.
  by destruct (go_handler_run env slug c req w) as (d & _ & _ & _ & _ & E & _).
Qed.

Lemma hits_kept_admin_last c req : hits_kept (admin_last env c req).
Proof.
  unfold admin_last.
  frame.
  apply (hits_kept_select c _
           (λ w, last_row <$> take 5 (merge_sort id_desc (clicks w)))).
Qed.

Lemma hits_kept_admin_export c req : hits_kept (admin_export env c req).
Proof.
  unfold admin_export.
  frame.
  apply (hits_kept_select c _ (λ w, take 1000 (merge_sort id_desc (clicks w)))).
Qed.

Lemma hits_kept_admin_export_day c req : hits_kept (admin_export_day env c req).
Proof.
  unfold admin_export_day.
  frame.
  apply hits_kept_pool_query. intros w a w'. unfold sql_day.
  destruct (pg_date_of_text _); [|done]. by intros [= _ <-].
Qed.

Lemma hits_kept_metrics c req : hits_kept (metrics_handler c req).
Proof. unfold metrics_handler. frame. Qed.

Lemma hits_kept_helmet c req : hits_kept (helmet c req).
Proof. intros w. by rewrite helmet_run. Qed.

Lemma hits_kept_dispatch stack c req :
  Forall (layer_keeps_hits c req) stack → hits_kept (dispatch stack c req).
Proof.
  induction 1 as [|l stack Hl _ IH]; [cbn [dispatch]; frame|].
  assert (∀ m : M Flow, hits_kept m →
            hits_kept (let* f := m in
                       match f with
                       | Next => dispatch stack c req
                       | Handled => ret Handled
                       end)) as Hstep.
  { intros m Hm. apply hits_kept_bind; [done|]. intros [|]; [done|frame]. }
  destruct l as [[mount|] fn|m pattern fn]; cbn [layer_keeps_hits] in Hl.
  - rewrite dispatch_use_mount.
    destruct (mounted mount (path req)); [apply Hstep; auto | done].
  - rewrite dispatch_use_all. by apply Hstep.
  - rewrite dispatch_route.
    destruct (match_route pattern (path req)); [done|frame|].
    destruct (method_matches m (req_method req)); [apply Hstep; auto | done].
Qed.

(** Outside the mount point of the limiter no request touches its store. *)
Lemma handle_keeps_hits c req :
  mounted "/go" (path req) = false → hits_kept (handle env c req).
Proof.
  intros Hm. apply hits_kept_dispatch.
  unfold app, before_kill_switch, after_kill_switch.
  repeat (apply Forall_cons_2; [cbn [layer_keeps_hits]; intros|]);
    [..|apply Forall_nil_2].
  - apply hits_kept_helmet.
  - unfold cors. frame.
  - apply hits_kept_status.
  - apply hits_kept_kill_switch.
  - apply hits_kept_admin_kill.
  - apply hits_kept_admin_unkill.
  - unfold root_handler. frame.
  - congruence.
  - apply hits_kept_go.
  - apply hits_kept_admin_last.
  - apply hits_kept_admin_export.
  - apply hits_kept_admin_export_day.
  - apply hits_kept_metrics.
Qed.
End FrameProps.

Section Window.
Context `{Platform}.
Variable env : ProcessEnv.

Lemma is_killed_same w w' : killed w' = killed w → is_killed w' = is_killed w.
Proof. unfold is_killed. by intros ->. Qed.

Lemma response_of_rejection c e :
  response_of (helmet_calls ++ limiter_rejection c e)
  = Some (Send 429 (Text "Too many requests, please try again later.")).
Proof. by rewrite response_after_helmet. Qed.

(** Requests of one client key inside a running window: the [i]-th of them
    is let through while the count stays within 120, and rejected after. *)
Lemma serve_in_window k start rs : ∀ w n,
  is_killed w = false → hits w !! k = Some (start, n) →
  Forall (λ cr : Ctx * Request,
            keyGenerator cr.2 = k ∧ (now cr.1 < start + 60000)%N
            ∧ ∃ slug, redirect_request cr.2 slug) rs →
  ∀ i calls, (serve env rs w).1 !! i = Some calls →
    (n + i < 120 → ∃ d, response_of calls = Some (Redirect 302 d))
    ∧ (120 ≤ n + i →
       ∃ c, calls = (helmet_calls ++ limiter_rejection c (start, S (n + i)))).
Proof.
  induction rs as [|[c req] rs IH]; intros w n Hk Hh Hall i calls; [done|].
  apply Forall_cons in Hall as [(Hkey & Hnow & slug & Hreq) Hall].
  cbn [fst snd] in Hkey, Hnow, Hreq.
  cbn [serve fst snd]. intros Hi.
  pose proof (handle_redirect env c req slug w Hreq Hk) as Hrun. cbn zeta in Hrun.
  rewrite Hkey, Hh in Hrun. unfold next_entry in Hrun.
  cbn [windowMs goOptions] in Hrun.
  apply N.ltb_lt in Hnow. rewrite Hnow in Hrun. cbn [snd] in Hrun.
  set (w1 := set_hits (<[k := (start, S n)]>) w) in *.
  assert (is_killed (world (handle env c req w)) = false
          ∧ hits (world (handle env c req w)) !! k = Some (start, S n)) as [Hk' Hh'].
  { rewrite Hrun. destruct (120 <? S n).
    - cbn. split; [done|]. apply lookup_insert_eq.
    - rewrite after_calls_world.
      destruct (go_handler_run env slug c req w1) as (d & _ & _ & _ & Ek & Eh & _).
      split.
      + by rewrite (is_killed_same w1 _ Ek).
      + rewrite Eh. apply lookup_insert_eq. }
  destruct i as [|i]; cbn [lookup list_lookup] in Hi.
  - injection Hi as <-. rewrite Hrun, Nat.add_0_r. split; intros Hn.
    + assert ((120 <? S n) = false) as -> by (apply Nat.ltb_ge; lia).
      rewrite after_calls_acts.
      destruct (go_response env slug c req w1) as [d Hd]. exists d.
      rewrite <- app_assoc, response_after_helmet. exact Hd.
    + assert ((120 <? S n) = true) as -> by (apply Nat.ltb_lt; lia).
      by exists c.
  - specialize (IH _ (S n) Hk' Hh' Hall i calls Hi).
    replace (n + S i) with (S n + i) by lia. exact IH.
Qed.

End Window.

(** * The model on examples *)

(** Section 8, item 3, with the allowlist [example.com, good.org]. *)
Example validator_examples :
  @resolveDest Demo.platform Demo.env_db (QStr "https://evil.com/x")
  = Normal (QStr "https://example.com")
  ∧ @resolveDest Demo.platform Demo.env_db (QStr "https://EXAMPLE.com/ok")
    = Normal (QStr "https://EXAMPLE.com/ok")
  ∧ @resolveDest Demo.platform Demo.env_db (QStr "not a url")
    = Normal (QStr "https://example.com")
  ∧ @resolveDest Demo.platform Demo.env_plain (QStr "ftp://example.com/")
    = Normal (QStr "https://example.com").
Proof. repeat split; reflexivity. Qed.

(** [String(v)] and [v || d] on query values. *)
Example query_value_examples :
  ToString (QArr [QStr "a"; QArr [QStr "b"; QStr "c"]; QObj [("x", QStr "1")]])
  = Normal "a,b,c,[object Object]"
  ∧ ToString (QArr []) = Normal ""
  ∧ ToString (QObj [("toString", QStr "x")])
    = Throw "Cannot convert object to primitive value"
  ∧ js_or_value (Some (QStr "")) (QStr "d") = QStr "d"
  ∧ js_or_value (Some (QArr [])) (QStr "d") = QArr []
  ∧ js_or_value None (QStr "d") = QStr "d".
Proof. repeat split; reflexivity. Qed.

(** With a pool configured the redirect is sent after the insert has
    settled, 5000 ms later when the insert takes that long. *)
Lemma redirect_waits_for_insert :
  ¬ @fire_and_forget Demo.platform Demo.env_db "abc"
      (Demo.slow Demo.t0 5000) Demo.go_abc initial_world.
Proof. intros [Hw _]. vm_compute in Hw. discriminate. Qed.

Lemma insert_is_awaited_before_redirect_run :
  acts (@go_handler Demo.platform Demo.env_db "abc"
          (Demo.slow Demo.t0 5000) Demo.go_abc initial_world)
  = [Awaited insert_text 5000 None; CounterInc "abc";
     Redirect 302 (QStr "https://example.com/ok?x=1#top")]
  ∧ awaited_before_response
      (acts (@go_handler Demo.platform Demo.env_db "abc"
               (Demo.slow Demo.t0 5000) Demo.go_abc initial_world)) = true
  ∧ response_delay
      (acts (@go_handler Demo.platform Demo.env_db "abc"
               (Demo.slow Demo.t0 5000) Demo.go_abc initial_world)) = 5000%N.
Proof.
  destruct (@insert_is_awaited_before_redirect Demo.platform Demo.env_db "abc"
              (Demo.slow Demo.t0 5000) Demo.go_abc initial_world)
    as ((d & Hd & _ & _ & Ha & _) & Hw & _).
  split; [|exact (Hw eq_refl)].
  rewrite (Ha eq_refl). injection Hd as <-. reflexivity.
Defined.

(** [GET /status] on an engaged switch is outside the admin namespace and is
    not answered 503: its route queries the store and answers 200. *)
Lemma status_is_answered_while_killed :
  is_killed Demo.killed_world = true
  ∧ startsWith (path Demo.get_status) "/admin" = false
  ∧ ¬ @refused_503 Demo.platform Demo.env_db (Demo.calm Demo.t0)
        Demo.get_status Demo.killed_world.
Proof.
  split; [reflexivity|]. split; [reflexivity|].
  intros [Hr _]. vm_compute in Hr. discriminate.
Qed.

Lemma kill_switch_gate_refuses_redirect :
  @refused_503 Demo.platform Demo.env_db (Demo.calm Demo.t0)
    Demo.go_abc Demo.killed_world.
Proof.
  apply (@kill_switch_gate Demo.platform Demo.env_db (Demo.calm Demo.t0)
           Demo.go_abc Demo.killed_world); reflexivity.
Defined.

Lemma insert_failure_is_absorbed_run :
  result (@go_handler Demo.platform Demo.env_db "abc"
            (Demo.outage Demo.t0) Demo.go_abc initial_world) = Normal Handled
  ∧ acts (@go_handler Demo.platform Demo.env_db "abc"
            (Demo.outage Demo.t0) Demo.go_abc initial_world)
    = [Awaited insert_text 3 (Some "connect ECONNREFUSED");
       ConsoleError "insert fail:" "connect ECONNREFUSED"; CounterInc "abc";
       Redirect 302 (QStr "https://example.com/ok?x=1#top")]
  ∧ clicksTotal (world (@go_handler Demo.platform Demo.env_db "abc"
                          (Demo.outage Demo.t0) Demo.go_abc initial_world)) !! "abc"
    = Some 1
  ∧ clicks (world (@go_handler Demo.platform Demo.env_db "abc"
                     (Demo.outage Demo.t0) Demo.go_abc initial_world)) = [].
Proof.
  destruct (@insert_failure_is_absorbed Demo.platform Demo.env_db "abc"
              (Demo.outage Demo.t0) Demo.go_abc initial_world "connect ECONNREFUSED"
              eq_refl eq_refl)
    as (d & Hd & _ & Hr & Ha & Hc & _ & Hk).
  injection Hd as <-.
  split; [exact Hr|]. split; [exact Ha|]. split; [exact Hc | exact Hk].
Defined.

(** The first variant with [DATABASE_URL] unset and no store answering: the
    awaited [CREATE TABLE] is rejected, the module throws and [app.listen]
    is never reached. *)
Lemma first_variant_needs_store :
  DATABASE_URL Demo.env_plain = ""
  ∧ ¬ listening (acts (V1.startup Demo.env_plain (Demo.outage Demo.t0) initial_world))
  ∧ result (V1.startup Demo.env_plain (Demo.outage Demo.t0) initial_world)
    = Throw "connect ECONNREFUSED".
Proof.
  split; [reflexivity|]. split; [|reflexivity].
  intros Hl. apply V1_startup_listens in Hl. discriminate.
Qed.

Lemma without_store_still_redirects_run :
  acts (startup Demo.env_plain (Demo.outage Demo.t0) (Demo.outage Demo.t0)
          (Demo.outage Demo.t0) initial_world)
  = [ConsoleWarn "No DATABASE_URL set. Logging disabled."; Listen "3000";
     ConsoleLog "Tiny FOB v2 running on port 3000"]
  ∧ acts (@go_handler Demo.platform Demo.env_plain "abc"
            (Demo.outage Demo.t0) Demo.go_abc initial_world)
    = [CounterInc "abc"; Redirect 302 (QStr "https://example.com/ok?x=1#top")]
  ∧ clicksTotal (world (@go_handler Demo.platform Demo.env_plain "abc"
                          (Demo.outage Demo.t0) Demo.go_abc initial_world)) !! "abc"
    = Some 1.
Proof.
  destruct (@without_store_still_redirects Demo.platform Demo.env_plain "abc"
              (Demo.outage Demo.t0) (Demo.outage Demo.t0) (Demo.outage Demo.t0)
              (Demo.outage Demo.t0) Demo.go_abc initial_world eq_refl)
    as ((_ & Hs & _) & (d & Hd & _ & _ & Ha & _ & Hc & _) & _).
  injection Hd as <-.
  split; [exact Hs|]. split; [exact Ha | exact Hc].
Defined.


Lemma kill_twice :
  is_killed (world (@handle Demo.platform Demo.env_db (Demo.calm Demo.t0)
                      Demo.post_kill Demo.killed_world)) = true
  ∧ response_of (acts (@handle Demo.platform Demo.env_db (Demo.calm Demo.t0)
                         Demo.post_kill Demo.killed_world))
    = Some (Send 200 (Text "killed")).
Proof.
  destruct (@kill_unkill_idempotent Demo.platform Demo.env_db (Demo.calm Demo.t0)
              Demo.post_kill Demo.killed_world eq_refl eq_refl)
    as (_ & Hkill & _).
  destruct (Hkill eq_refl) as (_ & Hr & _ & Hk & _).
  split; [exact Hk | exact Hr].
Defined.



Lemma testpass_opens_admin :
  adminOK Demo.env_plain
    (Demo.request POST "/admin/kill" [] [("x-admin-pass", "testpass")]) = true
  ∧ V1.adminOK Demo.env_plain (Demo.request POST "/admin/kill" [] []) = true.
Proof.
  split.
  - apply (admin_secret_unset Demo.env_plain
             (Demo.request POST "/admin/kill" [] [("x-admin-pass", "testpass")])
             eq_refl).
    reflexivity.
  - apply (admin_secret_unset Demo.env_plain
             (Demo.request POST "/admin/kill" [] []) eq_refl).
    reflexivity.
Defined.

(** * Further properties *)

(** ** Which requests change which part of the state *)

Section Respects.
Context (R : relation World) `{!PreOrder R}.

Lemma respects_ret {A} (a : A) : respects R (ret a).
Proof. intros w. reflexivity. Qed.

Lemma respects_throw {A} e : respects R (@throw A e).
Proof. intros w. reflexivity. Qed.

Lemma respects_emit a : respects R (emit a).
Proof. intros w. reflexivity. Qed.

Lemma respects_get : respects R get.
Proof. intros w. reflexivity. Qed.

Lemma respects_lift {A} (c : completion A) : respects R (lift c).
Proof. destruct c; intros w; reflexivity. Qed.

Lemma respects_modify f : (∀ w, R w (f w)) → respects R (modify f).
Proof. intros Hf w. apply Hf. Qed.

Lemma respects_bind {A B} (m : M A) (k : A → M B) :
  respects R m → (∀ x, respects R (k x)) → respects R (bind m k).
Proof.
  intros Hm Hk w. unfold bind. specialize (Hm w).
  destruct (m w) as [a [x|e] w1]; cbn in Hm; [|done].
  rewrite after_calls_world. etrans; [exact Hm | apply Hk].
Qed.

Lemma respects_try_catch {A} (m : M A) (h : string → M A) :
  respects R m → (∀ e, respects R (h e)) → respects R (try_catch m h).
Proof.
  intros Hm Hh w. unfold try_catch. specialize (Hm w).
  destruct (m w) as [a [x|e] w1]; cbn in Hm; [done|].
  rewrite after_calls_world. etrans; [exact Hm | apply Hh].
Qed.

Lemma respects_if {A} (b : bool) (m1 m2 : M A) :
  respects R m1 → respects R m2 → respects R (if b then m1 else m2).
Proof. by destruct b. Qed.

Lemma respects_pool_query {A} c sql (run : World → completion (A * World)) :
  (∀ w a w', run w = Normal (a, w') → R w w') →
  respects R (pool_query c sql run).
Proof.
  intros Hrun w. unfold pool_query. destruct (db_fault c); [reflexivity|].
  destruct (run w) as [[a w']|m] eqn:E; [|reflexivity]. cbn. eauto.
Qed.

Lemma respects_select {A} c sql (f : World → A) :
  respects R (pool_query c sql (λ w, Normal (f w, w))).
Proof. apply respects_pool_query. intros w a w' [= _ <-]. reflexivity. Qed.
End Respects.

(** Walks a handler's body down to its writes. *)
Ltac walk :=
  repeat match goal with
         | |- ∀ _, respects _ _ => intros ?
         | |- respects _ (bind _ _) => apply respects_bind; [done|..]
         | |- respects _ (try_catch _ _) => apply respects_try_catch; [done|..]
         | |- respects _ (if _ then _ else _) => apply respects_if
         | |- respects _ (ret _) => by apply respects_ret
         | |- respects _ (emit _) => by apply respects_emit
         | |- respects _ get => by apply respects_get
         | |- respects _ (lift _) => by apply respects_lift
         end.

Section RespectsApp.
Context `{Platform}.
Variable env : ProcessEnv.
Context (R : relation World) `{!PreOrder R}.

Lemma respects_helmet c req : respects R (helmet c req).
Proof. intros w. rewrite helmet_run. reflexivity. Qed.

Lemma respects_status c req : respects R (status_handler env c req).
Proof.
  unfold status_handler. walk.
  apply (respects_select R c _ (λ w, length (clicks w))).
Qed.

Lemma respects_kill_switch c req : respects R (kill_switch c req).
Proof. unfold kill_switch. walk. Qed.

Lemma respects_admin_kill c req :
  (adminOK env req = true → ∀ b w, R w (set_killed (Some b) w)) →
  respects R (admin_kill env c req).
Proof.
  intros Hk. unfold admin_kill. destruct (adminOK env req); cbn [negb]; walk.
  apply respects_modify. by apply Hk.
Qed.

Lemma respects_admin_unkill c req :
  (adminOK env req = true → ∀ b w, R w (set_killed (Some b) w)) →
  respects R (admin_unkill env c req).
Proof.
  intros Hk. unfold admin_unkill. destruct (adminOK env req); cbn [negb]; walk.
  apply respects_modify. by apply Hk.
Qed.

Lemma respects_root c req : respects R (root_handler c req).
Proof. unfold root_handler. walk. Qed.

Lemma respects_goLimiter c req :
  (∀ e w, R w (set_hits (<[keyGenerator req := e]>) w)) →
  respects R (goLimiter c req).
Proof.
  intros Hh w. rewrite goLimiter_run. destruct (120 <? _); apply Hh.
Qed.

Lemma respects_go slug c req :
  (∀ w, R w (set_clicksTotal (counted slug) w)) →
  (∀ row w, id row = S (clicks_id_seq w) →
     R w (set_clicks_id_seq (S (clicks_id_seq w)) (set_clicks (λ t, t ++ [row]) w))) →
  respects R (go_handler env slug c req).
Proof.
  intros Hinc Hins. unfold go_handler. walk.
  - apply (respects_pool_query R). intros w a w' E. unfold sql_insert in E.
    injection E as _ <-. by apply Hins.
  - by apply respects_modify.
Qed.

Lemma respects_admin_last c req : respects R (admin_last env c req).
Proof.
  unfold admin_last. walk.
  apply (respects_select R c _
           (λ w, last_row <$> take 5 (merge_sort id_desc (clicks w)))).
Qed.

Lemma respects_admin_export c req : respects R (admin_export env c req).
Proof.
  unfold admin_export. walk.
  apply (respects_select R c _ (λ w, take 1000 (merge_sort id_desc (clicks w)))).
Qed.

Lemma respects_admin_export_day c req : respects R (admin_export_day env c req).
Proof.
  unfold admin_export_day. walk.
  apply (respects_pool_query R). intros w a w'. unfold sql_day.
  destruct (pg_date_of_text _); [|done]. intros [= _ <-]. reflexivity.
Qed.

Lemma respects_metrics c req : respects R (metrics_handler c req).
Proof. unfold metrics_handler. walk. Qed.

Lemma respects_dispatch stack c req :
  Forall (layer_respects R c req) stack → respects R (dispatch stack c req).
Proof.
  induction 1 as [|l stack Hl _ IH]; [cbn [dispatch]; walk|].
  assert (∀ m : M Flow, respects R m →
            respects R (let* f := m in
                        match f with
                        | Next => dispatch stack c req
                        | Handled => ret Handled
                        end)) as Hstep.
  { intros m Hm. apply (respects_bind R); [done|]. intros [|]; [done|walk]. }
  destruct l as [[mount|] fn|m pattern fn]; cbn [layer_respects] in Hl.
  - rewrite dispatch_use_mount.
    destruct (mounted mount (path req)); [apply Hstep; auto | done].
  - rewrite dispatch_use_all. by apply Hstep.
  - rewrite dispatch_route.
    destruct (match_route pattern (path req)) as [| |ps] eqn:E; [done|walk|].
    destruct (method_matches m (req_method req)); [apply Hstep; auto | done].
Qed.

(** What a request may do to the state: the kill switch is written only by
    an authorised request, and the counter, the limiter's store and the
    table only by a request below [/go]. *)
Lemma handle_respects c req :
  (adminOK env req = true → ∀ b w, R w (set_killed (Some b) w)) →
  (mounted "/go" (path req) = true →
     (∀ slug w, R w (set_clicksTotal (counted slug) w))
     ∧ (∀ e w, R w (set_hits (<[keyGenerator req := e]>) w))
     ∧ (∀ row w, id row = S (clicks_id_seq w) →
          R w (set_clicks_id_seq (S (clicks_id_seq w))
                 (set_clicks (λ t, t ++ [row]) w)))) →
  respects R (handle env c req).
Proof.
  intros Hk Hgo. apply respects_dispatch.
  unfold app, before_kill_switch, after_kill_switch.
  repeat (apply Forall_cons_2; [cbn [layer_respects]; intros|]);
    [..|apply Forall_nil_2].
  - apply respects_helmet.
  - unfold cors. walk.
  - apply respects_status.
  - apply respects_kill_switch.
  - by apply respects_admin_kill.
  - by apply respects_admin_unkill.
  - apply respects_root.
  - apply respects_goLimiter. by apply Hgo.
  - match goal with E : match_route _ _ = Params _ |- _ =>
      apply go_route_mounted in E; destruct (Hgo E) as (Hinc & _ & Hins) end.
    by apply respects_go.
  - apply respects_admin_last.
  - apply respects_admin_export.
  - apply respects_admin_export_day.
  - apply respects_metrics.
Qed.

Lemma served_respects rs :
  (∀ c req, (c, req) ∈ rs → respects R (handle env c req)) →
  ∀ w, R w (served env rs w).
Proof.
  unfold served. induction rs as [|[c req] rs IH]; intros Hall w; [reflexivity|].
  cbn [serve snd]. etrans.
  - apply (Hall c req). left.
  - apply IH. intros c' req' Hin. apply Hall. by right.
Qed.
End RespectsApp.

Global Instance unchanged_preorder : PreOrder (λ w w' : World, w' = w).
Proof. split; [done|]. intros w1 w2 w3 -> ->. done. Qed.

Global Instance killed_kept_preorder : PreOrder (λ w w' : World, killed w' = killed w).
Proof. split; [done|]. intros w1 w2 w3 E1 E2. by rewrite E2. Qed.

Global Instance same_but_killed_preorder : PreOrder same_but_killed.
Proof.
  split; [done|]. intros w1 w2 w3 (?&?&?&?) (?&?&?&?).
  unfold same_but_killed. repeat split; congruence.
Qed.

Global Instance table_extends_preorder : PreOrder table_extends.
Proof.
  unfold table_extends. split.
  - intros w. exists []. by rewrite app_nil_r.
  - intros w1 w2 w3 [k1 E1] [k2 E2]. exists (k1 ++ k2).
    by rewrite E2, E1, app_assoc.
Qed.

Global Instance counts_grow_preorder : PreOrder counts_grow.
Proof.
  split.
  - intros w s. split; [lia | done].
  - intros w1 w2 w3 H1 H2 s.
    destruct (H1 s), (H2 s). split; [lia | auto].
Qed.

Global Instance fresh_ids_kept_preorder :
  PreOrder (λ w w' : World, fresh_ids w → fresh_ids w').
Proof. split; [by intros w|]. intros w1 w2 w3 ???; auto. Qed.

Lemma fresh_ids_insert row w :
  id row = S (clicks_id_seq w) → fresh_ids w →
  fresh_ids (set_clicks_id_seq (S (clicks_id_seq w)) (set_clicks (λ t, t ++ [row]) w)).
Proof.
  intros Hid [Hs Hb]. unfold fresh_ids. cbn. split.
  - rewrite fmap_app. apply StronglySorted_app_2; [|done|repeat constructor].
    intros x1 x2 (r & -> & Hr)%list_elem_of_fmap Hx2.
    apply list_elem_of_singleton in Hx2 as ->. cbn. rewrite Hid.
    rewrite Forall_forall in Hb. specialize (Hb r Hr). lia.
  - apply Forall_app. split.
    + eapply Forall_impl; [exact Hb|]. cbn. intros; lia.
    + apply Forall_singleton. lia.
Qed.

Lemma counted_grows slug m s :
  default 0 (m !! s) ≤ default 0 (counted slug m !! s)
  ∧ (is_Some (m !! s) → is_Some (counted slug m !! s)).
Proof.
  unfold counted. destruct (decide (slug = s)) as [->|Hne].
  - rewrite lookup_insert_eq. cbn. split; [lia | eauto].
  - by rewrite lookup_insert_ne.
Qed.

(** With [id]s that increase with insertion, ordering by [id] is ordering
    by insertion. *)
Lemma ids_sorted_asc l : StronglySorted lt (id <$> l) → StronglySorted id_asc l.
Proof.
  induction l as [|r l IH]; [constructor|].
  rewrite fmap_cons, !StronglySorted_cons, Forall_fmap.
  intros [Hr Hl]. split; [|auto].
  eapply Forall_impl; [exact Hr|]. unfold id_asc. cbn. intros; lia.
Qed.

Lemma ids_sorted_desc l :
  StronglySorted lt (id <$> l) → StronglySorted id_desc (reverse l).
Proof.
  induction l as [|r l IH]; [constructor|].
  rewrite fmap_cons, StronglySorted_cons, Forall_fmap, reverse_cons.
  intros [Hr Hl]. apply StronglySorted_app_2; [|auto|repeat constructor].
  intros x1 x2 Hx1 Hx2. rewrite elem_of_reverse in Hx1.
  apply list_elem_of_singleton in Hx2 as ->.
  rewrite Forall_forall in Hr. specialize (Hr x1 Hx1). unfold id_desc. cbn in Hr. lia.
Qed.

Lemma ids_distinct l a b :
  StronglySorted lt (id <$> l) → a ∈ l → b ∈ l → id a = id b → a = b.
Proof.
  induction l as [|r l IH]; [by intros _ ?%elem_of_nil|].
  rewrite fmap_cons, StronglySorted_cons, Forall_fmap, Forall_forall.
  intros [Hr Hl] [->|Ha]%elem_of_cons [->|Hb]%elem_of_cons E; auto.
  - specialize (Hr b Hb). cbn in Hr. lia.
  - specialize (Hr a Ha). cbn in Hr. lia.
Qed.

Lemma order_by_id_asc l :
  StronglySorted lt (id <$> l) → merge_sort id_asc l = l.
Proof.
  intros Hs. apply (StronglySorted_unique_strong id_asc).
  - intros x1 x2 Hx1 Hx2 H1 H2. rewrite merge_sort_Permutation in Hx1.
    apply (ids_distinct l); [done..|]. unfold id_asc in *. lia.
  - apply StronglySorted_merge_sort; apply _.
  - by apply ids_sorted_asc.
  - apply merge_sort_Permutation.
Qed.

Lemma order_by_id_desc l :
  StronglySorted lt (id <$> l) → merge_sort id_desc l = reverse l.
Proof.
  intros Hs. apply (StronglySorted_unique_strong id_desc).
  - intros x1 x2 Hx1 Hx2 H1 H2. rewrite elem_of_reverse in Hx2.
    rewrite merge_sort_Permutation in Hx1.
    apply (ids_distinct l); [done..|]. unfold id_desc in *. lia.
  - apply StronglySorted_merge_sort; apply _.
  - by apply ids_sorted_desc.
  - rewrite merge_sort_Permutation. by rewrite reverse_Permutation.
Qed.

Section Frames.
Context `{Platform}.
Variable env : ProcessEnv.

(** Outside [/go] a request changes nothing but, when it is authorised, the
    kill switch: the table, its sequence, the counter and the limiter's
    store stay as they are, and an unauthorised request leaves the whole
    state untouched.  This covers [/], [/status], [/metrics], the five admin
    routes and every path that no route serves. *)
Theorem state_untouched_outside_go c req w :
  mounted "/go" (path req) = false →
  same_but_killed w (world (handle env c req w))
  ∧ (adminOK env req = false → world (handle env c req w) = w).
Proof.
  intros Hm. split.
  - apply (handle_respects env same_but_killed); [done|congruence].
  - intros Hok.
    apply (handle_respects env (λ w w' : World, w' = w)); congruence.
Qed.

(** No request without the shared secret changes the kill switch, whatever
    its method and path. *)
Theorem kill_switch_needs_secret c req w :
  adminOK env req = false →
  killed (world (handle env c req w)) = killed w.
Proof.
  intros Hok.
  apply (handle_respects env (λ w w' : World, killed w' = killed w));
    [congruence|done].
Qed.

Lemma handle_extends c req : respects table_extends (handle env c req).
Proof.
  apply (handle_respects env table_extends); unfold table_extends.
  - intros _ b w. cbn. reflexivity.
  - intros _. split; [|split]; intros; cbn; try reflexivity.
    by apply prefix_app_r.
Qed.

Lemma handle_counts c req : respects counts_grow (handle env c req).
Proof.
  assert (∀ w w', clicksTotal w' = clicksTotal w → counts_grow w w') as Hsame.
  { intros w w' E s. rewrite E. split; [lia | done]. }
  apply (handle_respects env counts_grow).
  - intros _ b w. by apply Hsame.
  - intros _. split; [|split]; intros.
    + intros s. cbn. apply counted_grows.
    + by apply Hsame.
    + by apply Hsame.
Qed.

Lemma handle_fresh_ids c req :
  respects (λ w w', fresh_ids w → fresh_ids w') (handle env c req).
Proof.
  apply (handle_respects env (λ w w', fresh_ids w → fresh_ids w')).
  - by intros _ b w.
  - intros _. split; [|split]; intros; try done.
    by apply fresh_ids_insert.
Qed.

(** The table is append-only and the counter monotone: whatever requests
    are served, in whatever order and whatever the store does, the rows
    there were are still there, unchanged and in place, and no counter has
    gone down or disappeared. *)
Theorem table_append_only_counter_monotone rs w :
  clicks w `prefix_of` clicks (served env rs w)
  ∧ ∀ s, default 0 (clicksTotal w !! s) ≤ default 0 (clicksTotal (served env rs w) !! s)
         ∧ (is_Some (clicksTotal w !! s) → is_Some (clicksTotal (served env rs w) !! s)).
Proof.
  split.
  - apply (served_respects env table_extends). intros. apply handle_extends.
  - apply (served_respects env counts_grow). intros. apply handle_counts.
Qed.

(** Starting from the empty table, after any requests the [id]s increase
    strictly with insertion. Hence the two orderings the reports ask the
    store for are orderings by insertion: [ORDER BY id] is the table as
    inserted, [ORDER BY id DESC] its reverse, and [/admin/last] reads the
    five rows inserted last, newest first. *)
Theorem ids_follow_insertion rs :
  let w := served env rs initial_world in
  StronglySorted lt (id <$> clicks w)
  ∧ NoDup (id <$> clicks w)
  ∧ merge_sort id_asc (clicks w) = clicks w
  ∧ merge_sort id_desc (clicks w) = reverse (clicks w)
  ∧ sql_last w = Normal (last_row <$> take 5 (reverse (clicks w)), w).
Proof.
  cbn zeta.
  assert (fresh_ids (served env rs initial_world)) as [Hs _].
  { apply (served_respects env (λ w w', fresh_ids w → fresh_ids w')).
    - intros. apply handle_fresh_ids.
    - split; constructor. }
  split; [done|]. split.
  { clear -Hs. induction Hs as [|x l _ IH Hx]; constructor; [|done].
    intros Hin. rewrite Forall_forall in Hx. specialize (Hx x Hin). lia. }
  split; [by apply order_by_id_asc|].
  split; [by apply order_by_id_desc|].
  unfold sql_last. by rewrite order_by_id_desc.
Qed.
End Frames.

(** ** The handlers one by one *)

(** A handler whose body is one [try] with a [catch] that only answers
    lets no exception out. *)
Lemma handled_after_catch (m : M unit) (f : string → action) w :
  result ((exec try_catch m (λ e, emit (f e)) in ret Handled) w) = Normal Handled.
Proof.
  unfold bind, try_catch. destruct (m w) as [a [[]|e] w1]; reflexivity.
Qed.

Section HandlerProps.
Context `{Platform}.
Variable env : ProcessEnv.

(** [/status] always answers 200 and never throws or writes: without a pool
    it reports 0 clicks and asks the store nothing; with a pool it reports
    the number of rows of the table; when the store rejects the query the
    answer is still a 200, with [ok: false] and the store's message. *)
Theorem status_always_answers c req w :
  let o := status_handler env c req w in
  result o = Normal Handled ∧ world o = w
  ∧ match pool env, db_fault c with
    | false, _ => acts o = [Send 200 (JsonStatus (toISOString (now c)) 0)]
    | true, None =>
        acts o = [Awaited "SELECT count(*)::int AS c FROM clicks" (db_latency c) None;
                  Send 200 (JsonStatus (toISOString (now c)) (length (clicks w)))]
    | true, Some m =>
        acts o = [Awaited "SELECT count(*)::int AS c FROM clicks" (db_latency c) (Some m);
                  Send 200 (JsonNotOk m)]
    end.
Proof.
  cbn zeta. unfold status_handler.
  destruct (pool env); [destruct (db_fault c) as [m|] eqn:Hf|];
    unfold bind, try_catch, pool_query; rewrite ?Hf; done.
Qed.

(** An authorised [/admin/export] never throws or writes. With the query
    fulfilled it hands to the encoder the first 1000 rows (or all, if fewer)
    of the table in descending order of [id] and sends the encoding as
    [clicks.csv]; a rejection by the store or by the encoder is answered 500
    with the message, and then no download header is set. Without a pool
    the encoder is given no rows. *)
Theorem export_recent_thousand c req w :
  adminOK env req = true →
  let o := admin_export env c req w in
  let sent rows pre :=
    match Parser_parse rows with
    | Normal csv =>
        acts o = pre ++ [SetHeader "Content-Type" "text/csv";
                         SetHeader "Content-Disposition" "attachment; filename=clicks.csv";
                         Send 200 (Csv csv)]
    | Throw m => acts o = pre ++ [Send 500 (Text ("error exporting CSV: " +:+ m))]
    end in
  result o = Normal Handled ∧ world o = w
  ∧ match pool env, db_fault c with
    | false, _ => sent [] []
    | true, Some m =>
        acts o = [Awaited "SELECT * FROM clicks ORDER BY id DESC LIMIT 1000"
                    (db_latency c) (Some m);
                  Send 500 (Text ("error exporting CSV: " +:+ m))]
    | true, None =>
        ∃ top rest,
          top ++ rest ≡ₚ clicks w
          ∧ StronglySorted id_desc (top ++ rest)
          ∧ length top = min 1000 (length (clicks w))
          ∧ sent top [Awaited "SELECT * FROM clicks ORDER BY id DESC LIMIT 1000"
                        (db_latency c) None]
    end.
Proof.
  intros Hok. cbn zeta. unfold admin_export. rewrite Hok. cbn [negb].
  destruct (pool env); [destruct (db_fault c) as [m|] eqn:Hf|];
    unfold bind, try_catch, pool_query, sql_export; rewrite ?Hf.
  - done.
  - cbn [lift].
    set (top := take 1000 (merge_sort id_desc (clicks w))).
    assert (∃ top' rest, top' = top ∧ top' ++ rest ≡ₚ clicks w
                         ∧ StronglySorted id_desc (top' ++ rest)
                         ∧ length top' = min 1000 (length (clicks w)))
      as (top' & rest & -> & Hp & Hs & Hl).
    { exists top, (drop 1000 (merge_sort id_desc (clicks w))).
      unfold top. rewrite take_drop. repeat split.
      - apply merge_sort_Permutation.
      - apply StronglySorted_merge_sort; apply _.
      - rewrite length_take.
        by rewrite (Permutation_length (merge_sort_Permutation id_desc (clicks w))). }
    destruct (Parser_parse top) as [csv|m] eqn:Hcsv; cbn;
      (split; [done|]); (split; [done|]); exists top, rest; rewrite Hcsv; done.
  - cbn [lift ret]. destruct (Parser_parse []) as [csv|m]; cbn; done.
Qed.

(** What goes wrong in an authorised [/admin/export/day]. A [day] that is
    an array or an object (the parameter written twice, or with brackets)
    makes the handler throw at l.309, before its [try]: nothing is sent.
    With a [day] that is a string or missing no exception leaves the
    handler, and a day that Postgres does not take for a date, or a store
    that rejects the query, is answered 500 with the message behind
    ["export error: "], without a download header. Nothing is ever
    written. Without a pool the encoder is given no rows. *)
Theorem export_day_failures c req w :
  adminOK env req = true →
  let o := admin_export_day env c req w in
  let select :=
    Awaited
      "SELECT id, ts, ip, ua, slug, dest FROM clicks WHERE ts::date = $1::date ORDER BY id"
      (db_latency c) in
  world o = w
  ∧ (∀ v, query req !! "day" = Some v → (∀ s, v ≠ QStr s) →
     ∃ m, result o = Throw m ∧ acts o = [])
  ∧ (∀ given : option string, query req !! "day" = QStr <$> given →
     let day := trim (js_or given (slice0 10 (toISOString (now c)))) in
     result o = Normal Handled
     ∧ (pool env = true → db_fault c = None →
        ∀ m, pg_date_of_text day = Throw m →
        acts o = [select (Some m); Send 500 (Text ("export error: " +:+ m))])
     ∧ (pool env = true → ∀ m, db_fault c = Some m →
        acts o = [select (Some m); Send 500 (Text ("export error: " +:+ m))])
     ∧ (pool env = false →
        match Parser_parse [] with
        | Normal csv =>
            acts o = [SetHeader "Content-Type" "text/csv";
                      SetHeader "Content-Disposition"
                        ("attachment; filename=clicks_" +:+ day +:+ ".csv");
                      Send 200 (Csv csv)]
        | Throw m => acts o = [Send 500 (Text ("export error: " +:+ m))]
        end)).
Proof.
  intros Hok. cbn zeta.
  pose proof (respects_admin_export_day env (λ w w' : World, w' = w) c req w) as Hw.
  cbn beta in Hw. split; [exact Hw|]. split.
  - intros v E Hv.
    destruct (admin_export_day_throws env c req w v Hok E Hv) as [m ->]. eauto.
  - intros given E.
    destruct (admin_export_day_run env c req w _ Hok (export_day_of_string c req given E))
      as (Hr & _ & Hrun).
    split; [exact Hr|]. split; [|split].
    + intros Hp Hf m Hd. by rewrite Hp, Hf, Hd in Hrun.
    + intros Hp m Hf. by rewrite Hp, Hf in Hrun.
    + intros Hp. by rewrite Hp in Hrun.
Qed.

(** The hardened variant reaches [app.listen] whatever the store does, and
    its module never throws. With a pool, the schema set-up runs detached:
    its three statements are awaited one after the other, it stops at the
    first one the store rejects, and it leaves one line on the console,
    the error or the message of success. Without a pool the module warns
    and sends nothing to a store. *)
Theorem startup_survives_store c1 c2 c3 w :
  let s := startup env c1 c2 c3 w in
  let table := Awaited "CREATE TABLE IF NOT EXISTS clicks" (db_latency c1) in
  let ts_idx :=
    Awaited "CREATE INDEX IF NOT EXISTS clicks_ts_idx ON clicks(ts)" (db_latency c2) in
  let slug_idx :=
    Awaited "CREATE INDEX IF NOT EXISTS clicks_slug_idx ON clicks(slug)" (db_latency c3) in
  let listen :=
    [Listen (port env); ConsoleLog ("Tiny FOB v2 running on port " +:+ port env)] in
  result s = Normal tt ∧ world s = w ∧ listening (acts s)
  ∧ (pool env = true →
     acts s = listen ++
       match db_fault c1, db_fault c2, db_fault c3 with
       | Some m, _, _ => [table (Some m); ConsoleError "DB init error:" m]
       | None, Some m, _ =>
           [table None; ts_idx (Some m); ConsoleError "DB init error:" m]
       | None, None, Some m =>
           [table None; ts_idx None; slug_idx (Some m);
            ConsoleError "DB init error:" m]
       | None, None, None =>
           [table None; ts_idx None; slug_idx None;
            ConsoleLog "Postgres connected, clicks table/indexes ready"]
       end)
  ∧ (pool env = false →
     acts s = ConsoleWarn "No DATABASE_URL set. Logging disabled." :: listen).
Proof.
  cbn zeta. unfold startup, schema_init, listening.
  destruct (pool env);
    [destruct (db_fault c1) as [m1|] eqn:Hf1;
     [|destruct (db_fault c2) as [m2|] eqn:Hf2;
       [|destruct (db_fault c3) as [m3|] eqn:Hf3]]|];
    unfold bind, try_catch, pool_query; rewrite ?Hf1, ?Hf2, ?Hf3; cbn;
    (split; [done|]); (split; [done|]);
    (split; [exists (port env); set_solver | done]).
Qed.

(** A redirect whose insert is fulfilled appends exactly one row: its [id] is
    the next of the sequence, its [ts] the time of the request, its [dest]
    the text of the destination the client is redirected to (the resolved
    one, not the raw parameter; the destination itself when it is a
    string), its [ip] the client address of l.259, its [ua] the
    [User-Agent] header or the empty string. The counter of the slug goes
    up by one, after the insert and before the response, and no other
    counter changes. *)
Theorem redirect_is_logged slug c req w :
  pool env = true → db_fault c = None →
  let o := go_handler env slug c req w in
  ∃ d, resolveDest env (rawDest req) = Normal d
     ∧ resolved_destination env req d
     ∧ acts o = [Awaited "INSERT INTO clicks (slug, dest, ip, ua) VALUES ($1,$2,$3,$4)"
                   (db_latency c) None;
                 CounterInc slug; Redirect 302 d]
     ∧ (∃ text, clicks (world o)
               = clicks w ++ [{| id := S (clicks_id_seq w); ts := now c; slug := slug;
                                 dest := text; c_ip := client_ip req;
                                 ua := js_or (req_get req "user-agent") "" |}]
             ∧ (∀ s, d = QStr s → text = s)
             ∧ ((∀ s, d ≠ QStr s) → text = prepareValue d))
     ∧ clicks_id_seq (world o) = S (clicks_id_seq w)
     ∧ clicksTotal (world o) !! slug = Some (S (default 0 (clicksTotal w !! slug)))
     ∧ (∀ s, s ≠ slug → clicksTotal (world o) !! s = clicksTotal w !! s).
Proof.
  intros Hp Hf. cbn zeta.
  destruct (go_handler_run env slug c req w) as (d & Hd & Hr & Hc & _ & _ & Hm).
  rewrite Hp, Hf in Hm. destruct Hm as (Ha & Hk & Hseq).
  exists d. split; [done|]. split; [by apply go_resolves|]. split; [done|].
  split.
  { exists (pg_text d). split; [done|]. split.
    - by intros s ->.
    - intros Hn. destruct d as [s| |]; [by destruct (Hn s)|done..]. }
  split; [done|]. rewrite Hc.
  split; [apply counted_lookup|]. intros s Hs. by apply counted_other.
Qed.

(** Without the secret, [POST /admin/kill] and [POST /admin/unkill] are
    answered 403 through the whole stack, also while the switch is engaged,
    and leave the state as it is. *)
Theorem kill_without_secret_is_forbidden c req w :
  req_method req = POST → adminOK env req = false →
  path req = "/admin/kill" ∨ path req = "/admin/unkill" →
  handle env c req w
  = {| acts := helmet_calls ++ [Send 403 (Text "forbidden")];
       result := Normal Handled; world := w |}.
Proof.
  intros Hm Hok Hp. rewrite handle_prefix, dispatch_route.
  assert (match_route "/status" (path req) = NoMatch) as ->.
  { by destruct Hp as [-> | ->]. }
  rewrite dispatch_use_all.
  erewrite bind_normal by (apply kill_switch_admin; by destruct Hp as [-> | ->]).
  rewrite after_calls_nil. unfold after_kill_switch.
  destruct Hp as [Hp|Hp].
  - rewrite dispatch_route, Hm, Hp.
    assert (match_route "/admin/kill" "/admin/kill" = Params ∅) as -> by reflexivity.
    cbn [method_matches bool_decide decide_rel orb]. unfold admin_kill. rewrite Hok.
    reflexivity.
  - rewrite dispatch_route, Hp.
    assert (match_route "/admin/kill" "/admin/unkill" = NoMatch) as -> by reflexivity.
    rewrite dispatch_route, Hm, Hp.
    assert (match_route "/admin/unkill" "/admin/unkill" = Params ∅) as -> by reflexivity.
    cbn [method_matches bool_decide decide_rel orb]. unfold admin_unkill. rewrite Hok.
    reflexivity.
Qed.
End HandlerProps.

(** ** Strings: the allowlist and the client address *)

(** The allowlist of l.135-138 is normalised: no entry is empty, has a
    capital letter, a comma, or white space at its start or end; an unset,
    empty or blank variable gives the empty list, which [isAllowedDest]
    reads as "allow every host"; and the letter case of the variable does
    not matter. *)
Theorem allowlist_is_normalised (env env' : ProcessEnv) :
  (∀ h, h ∈ DEST_HOST_ALLOWLIST env →
        h ≠ "" ∧ toLowerCase h = h ∧ trim h = h ∧ has_char "," h = false
        ∧ no_capital h ∧ no_space_around h)
  ∧ (trim (js_or (DEST_HOST_ALLOWLIST_var env) "") = "" → DEST_HOST_ALLOWLIST env = [])
  ∧ (blank (js_or (DEST_HOST_ALLOWLIST_var env) "") → DEST_HOST_ALLOWLIST env = [])
  ∧ (DEST_HOST_ALLOWLIST_var env' = toLowerCase <$> DEST_HOST_ALLOWLIST_var env →
     DEST_HOST_ALLOWLIST env' = DEST_HOST_ALLOWLIST env).
Proof.
  assert (trim (js_or (DEST_HOST_ALLOWLIST_var env) "") = "" →
          DEST_HOST_ALLOWLIST env = []) as Hblank.
  { unfold DEST_HOST_ALLOWLIST. intros Hblank.
    assert (has_char "," (js_or (DEST_HOST_ALLOWLIST_var env) "") = false) as Hc.
    { generalize dependent (js_or (DEST_HOST_ALLOWLIST_var env) ""). intros s Hs.
      destruct (has_char "," s) eqn:E; [|done]. exfalso.
      assert (has_char "," (trim s) = true) as Ht; [|by rewrite Hs in Ht].
      clear Hs. unfold trim, trimEnd. rewrite has_char_rev.
      assert (∀ t, has_char "," t = true → has_char "," (trimStart t) = true) as Hkeep.
      { induction t as [|c t IH]; [done|]. cbn.
        destruct (is_js_space c) eqn:Ec; [|done].
        intros [Hc|Ht]%orb_true_iff; [|auto].
        apply bool_decide_eq_true in Hc. by subst c. }
      apply Hkeep. rewrite has_char_rev. by apply Hkeep. }
    rewrite (split_whole _ _ Hc). cbn. rewrite Hblank. cbn.
    by rewrite decide_False by (intros ?; done). }
  split; [|split; [exact Hblank|split; [intros Hb; by apply Hblank, blank_trim|]]].
  - unfold DEST_HOST_ALLOWLIST. intros h Hin.
    apply list_elem_of_filter in Hin as [Hne Hin].
    apply list_elem_of_fmap in Hin as (piece & -> & Hin).
    split; [done|]. split; [apply toLowerCase_idemp|]. split.
    { by rewrite toLowerCase_trim, trim_idemp. }
    split.
    { pose proof (split_pieces "," (js_or (DEST_HOST_ALLOWLIST_var env) "")) as Hp.
      rewrite Forall_forall in Hp. specialize (Hp piece Hin).
      apply has_char_trim in Hp. revert Hp. generalize (trim piece). clear.
      induction s as [|c s IH]; [done|]. cbn.
      intros [Hc Hs]%orb_false_iff. rewrite IH by done.
      apply bool_decide_eq_false in Hc. rewrite orb_false_r.
      apply bool_decide_eq_false. by rewrite lower_char_comma. }
    split; [apply toLowerCase_no_capital|].
    rewrite <- toLowerCase_trim. apply trim_no_space_around.
  - unfold DEST_HOST_ALLOWLIST. intros E.
    assert (js_or (DEST_HOST_ALLOWLIST_var env') ""
            = toLowerCase (js_or (DEST_HOST_ALLOWLIST_var env) "")) as ->.
    { rewrite E. destruct (DEST_HOST_ALLOWLIST_var env) as [v|]; [|done]. cbn.
      destruct (decide (v = "")) as [->|Hv]; [done|].
      rewrite decide_False; [done|]. by intros ?%toLowerCase_empty. }
    rewrite toLowerCase_split, <- list_fmap_compose. f_equal.
    apply list_fmap_ext. intros _ s _. cbn.
    by rewrite toLowerCase_trim, toLowerCase_idemp.
Qed.

(** The address logged for a click (l.259) has no white space around it
    and no comma in it. When [X-Forwarded-For] is there and not empty,
    whatever [req.ip] is, it is the header's first entry, trimmed: what
    stands before the first comma, or the whole header when it has no
    comma. The header missing or empty, it is [req.ip]; both missing, it
    is the empty string. *)
Theorem client_ip_is_first_hop (req : Request) :
  trim (client_ip req) = client_ip req
  ∧ no_space_around (client_ip req)
  ∧ has_char "," (client_ip req) = false
  ∧ (∀ h rest, headers req !! "x-forwarded-for" = Some (h +:+ String "," rest) →
       has_char "," h = false → client_ip req = trim h ∧ trimmed_of h (client_ip req))
  ∧ (∀ h, headers req !! "x-forwarded-for" = Some h → h ≠ "" →
       has_char "," h = false → client_ip req = trim h ∧ trimmed_of h (client_ip req))
  ∧ (∀ a, js_or (headers req !! "x-forwarded-for") "" = "" → ip req = Some a →
       has_char "," a = false → client_ip req = trim a ∧ trimmed_of a (client_ip req))
  ∧ (js_or (headers req !! "x-forwarded-for") "" = "" → ip req = None →
     client_ip req = "").
Proof.
  assert (∀ h x, x = trim h → x = trim h ∧ trimmed_of h x) as Hpair.
  { intros h x ->. split; [done | apply trim_spec]. }
  unfold client_ip. split; [apply trim_idemp|].
  split; [apply trim_no_space_around|]. split; [|split; [|split; [|split]]].
  - apply has_char_trim.
    pose proof (split_pieces ","
      (js_or (js_or_undef (headers req !! "x-forwarded-for") (ip req)) "")) as Hp.
    destruct (split "," _) as [|h t]; [done|]. by apply Forall_cons in Hp as [? _].
  - intros h rest -> Hh. apply Hpair. cbn.
    rewrite decide_False by (by destruct h). cbn.
    rewrite decide_False by (by destruct h).
    by rewrite split_first.
  - intros h -> Hne Hh. apply Hpair. cbn.
    rewrite decide_False by done. cbn.
    rewrite decide_False by done.
    by rewrite split_whole.
  - intros a Hx -> Ha. apply Hpair.
    assert (js_or_undef (headers req !! "x-forwarded-for") (Some a) = Some a) as ->.
    { destruct (headers req !! "x-forwarded-for") as [x|]; [|done]. cbn in *.
      by destruct (decide (x = "")). }
    cbn. destruct (decide (a = "")) as [->|_]; [done|].
    by rewrite split_whole.
  - intros Hx ->.
    assert (js_or_undef (headers req !! "x-forwarded-for") None = None) as ->.
    { destruct (headers req !! "x-forwarded-for") as [x|]; [|done]. cbn in *.
      by destruct (decide (x = "")). }
    done.
Qed.

(** ** Kill, traffic, unkill *)

Section KillScenario.
Context `{Platform}.
Variable env : ProcessEnv.

Lemma go_route_not_admin p ps :
  match_route "/go/:slug" p = Params ps → startsWith p "/admin" = false.
Proof.
  intros (b & x & v & Hseg & Hb & _)%go_route_shape.
  unfold segments in Hseg. apply split_three in Hseg. rewrite append_nil_l in Hseg.
  destruct b as [|c1 [|c2 [|c3 b]]]; try done. cbn in Hb.
  assert (lower_char c1 = "g"%char) as Hc1 by congruence.
  assert (∃ t, p = String "/" (String c1 (String c2 (String "/" t)))) as [t ->].
  { destruct (drop_trailing_slash_cases p) as [E|E]; rewrite E, Hseg; eauto. }
  unfold startsWith. cbn [String.prefix].
  destruct (Ascii.ascii_dec "/" "/"); [|done].
  destruct (Ascii.ascii_dec "a" c1) as [<-|]; done.
Qed.

(** A request that the switch refuses, through the whole stack. *)
Lemma handle_refused c req w :
  is_killed w = true → startsWith (path req) "/admin" = false →
  status_request req = false →
  handle env c req w
  = {| acts := helmet_calls ++ [Send 503 (Text "Service unavailable")];
       result := Normal Handled; world := w |}.
Proof.
  intros Hk Hp Hs. rewrite handle_prefix, dispatch_route.
  assert (dispatch (Use None kill_switch :: after_kill_switch env) c req w
          = {| acts := [Send 503 (Text "Service unavailable")];
               result := Normal Handled; world := w |}) as Hgate.
  { rewrite dispatch_use_all. erewrite bind_normal by by apply kill_switch_blocks.
    done. }
  destruct (not_status_request req Hs) as [-> | [-> ->]]; by rewrite Hgate.
Qed.

(** Kill, a redirect request, unkill, the same request again: the answers
    are ["killed"], 503, ["un-killed"] and the 302. The refused request
    leaves the state as the kill left it: it is neither counted nor charged
    to the client's quota. The one that goes through opens the client's
    window with a count of one and raises the counter of the slug by one,
    no other counter changing. *)
Theorem kill_then_unkill_restores c1 c2 c3 c4 k u r slug w :
  req_method k = POST → path k = "/admin/kill" → adminOK env k = true →
  req_method u = POST → path u = "/admin/unkill" → adminOK env u = true →
  redirect_request r slug → hits w !! keyGenerator r = None →
  let out := serve env [(c1, k); (c2, r); (c3, u); (c4, r)] w in
  ∃ d, resolveDest env (rawDest r) = Normal d
     ∧ resolved_destination env r d
     ∧ response_of <$> out.1
       = [Some (Send 200 (Text "killed"));
          Some (Send 503 (Text "Service unavailable"));
          Some (Send 200 (Text "un-killed"));
          Some (Redirect 302 d)]
     ∧ (serve env [(c1, k); (c2, r)] w).2 = set_killed (Some true) w
     ∧ killed out.2 = Some false
     ∧ clicksTotal out.2 !! slug = Some (S (default 0 (clicksTotal w !! slug)))
     ∧ (∀ s, s ≠ slug → clicksTotal out.2 !! s = clicksTotal w !! s)
     ∧ hits out.2 !! keyGenerator r = Some (now c4, 1)
     ∧ length (clicks out.2) ≤ S (length (clicks w)).
Proof.
  intros Hkm Hkp Hkok Hum Hup Huok Hr Hfresh. cbn zeta.
  pose proof Hr as [_ (ps & Hps & _)].
  assert (status_request r = false) as Hns.
  { unfold status_request. by destruct (go_route_only _ _ Hps) as [-> _]. }
  pose proof (go_route_not_admin _ _ Hps) as Hna.
  cbn [serve fst snd].
  rewrite (handle_kill env c1 k w) by done. cbn [acts world].
  rewrite (handle_refused c2 r (set_killed (Some true) w)) by done. cbn [acts world].
  rewrite (handle_unkill env c3 u (set_killed (Some true) w)) by done. cbn [acts world].
  set (w3 := set_killed (Some false) (set_killed (Some true) w)).
  pose proof (handle_redirect env c4 r slug w3 Hr eq_refl) as Hrun. cbn zeta in Hrun.
  change (hits w3) with (hits w) in Hrun. rewrite Hfresh in Hrun.
  cbn [next_entry snd] in Hrun. change (120 <? 1) with false in Hrun.
  set (w4 := set_hits (<[keyGenerator r := (now c4, 1)]>) w3) in *.
  destruct (go_handler_run env slug c4 r w4) as (d & Hd & _ & Hc & Ek & Eh & Hm).
  destruct (go_response env slug c4 r w4) as (d' & Hd').
  rewrite Hrun. exists d'. rewrite after_calls_world, after_calls_acts.
  assert (d' = d) as ->.
  { destruct (pool env); [destruct (db_fault c4)|]; destruct Hm as (Ha & _ & _);
      rewrite Ha in Hd'; by injection Hd'. }
  split; [done|]. split; [by apply go_resolves|]. split.
  { cbn [fmap list_fmap]. rewrite !response_after_helmet.
    rewrite <- app_assoc, response_after_helmet. cbn [app].
    change (response_of (limiter_calls c4 (now c4, 1) ++ ?l)) with (response_of l).
    by rewrite Hd'. }
  split; [done|].
  split; [by rewrite Ek|]. rewrite Hc.
  split; [apply counted_lookup|]. split; [intros s Hs; by apply counted_other|].
  split.
  - rewrite Eh. apply lookup_insert_eq.
  - destruct (pool env); [destruct (db_fault c4)|]; destruct Hm as (_ & -> & _);
      rewrite ?length_app; cbn; lia.
Qed.
End KillScenario.

(** ** The first variant *)

Section FirstVariant.
Context `{Platform}.

(** In the first variant a rejection by the store escapes from [/status] and
    from an authorised [/admin/last]: the handler throws and has made no
    call on the response. It also sends [dest] in full, where the hardened
    variant sends its first 60 characters. *)
Theorem first_variant_lets_store_errors_out env c req w :
  (∀ m, db_fault c = Some m →
     V1.status_handler c req w
     = {| acts := [Awaited "SELECT COUNT(*)::int AS c FROM clicks" (db_latency c) (Some m)];
          result := Throw m; world := w |}
     ∧ (V1.adminOK env req = true →
        V1.admin_last env c req w
        = {| acts := [Awaited "SELECT ts, slug, dest FROM clicks ORDER BY id DESC LIMIT 5"
                        (db_latency c) (Some m)];
             result := Throw m; world := w |}))
  ∧ (db_fault c = None → V1.adminOK env req = true →
     ∃ rows, acts (V1.admin_last env c req w)
             = [Awaited "SELECT ts, slug, dest FROM clicks ORDER BY id DESC LIMIT 5"
                  (db_latency c) None;
                Send 200 (JsonRows rows)]
           ∧ l_dest <$> rows = dest <$> take 5 (merge_sort id_desc (clicks w))).
Proof.
  split.
  - intros m Hf. split.
    + unfold V1.status_handler, bind, pool_query. by rewrite Hf.
    + intros Hok. unfold V1.admin_last, bind, pool_query. by rewrite Hok, Hf.
  - intros Hf Hok. eexists. unfold V1.admin_last, bind, pool_query, V1.sql_last.
    rewrite Hok, Hf. cbn. split; [reflexivity|].
    by rewrite <- list_fmap_compose.
Qed.
End FirstVariant.

(** With the secret set to a non-empty string both variants authorise
    exactly the requests whose [x-admin-pass] header equals it; set to the
    empty string, the hardened variant falls back to ["testpass"] while the
    first variant authorises the empty header. *)
Theorem admin_secret_set (env : ProcessEnv) (req : Request) (s : string) :
  FOB_ADMIN_PASS env = Some s →
  (s ≠ "" →
   adminOK env req = V1.adminOK env req
   ∧ (adminOK env req = true ↔ req_get req "x-admin-pass" = Some s))
  ∧ (s = "" →
     (adminOK env req = true ↔ req_get req "x-admin-pass" = Some "testpass")
     ∧ (V1.adminOK env req = true ↔ req_get req "x-admin-pass" = Some "")).
Proof.
  intros E. unfold adminOK, V1.adminOK, ADMIN. rewrite E. cbn. split.
  - intros Hs. rewrite decide_False by done. split; [done|]. apply bool_decide_eq_true.
  - intros ->. cbn. split; apply bool_decide_eq_true.
Qed.

(** ** The further properties on examples *)

Lemma metrics_changes_nothing :
  world (@handle Demo.platform Demo.env_db (Demo.calm Demo.t0)
           Cases.get_metrics Demo.three_clicks) = Demo.three_clicks.
Proof.
  apply (@state_untouched_outside_go Demo.platform Demo.env_db (Demo.calm Demo.t0)
           Cases.get_metrics Demo.three_clicks); reflexivity.
Defined.

Lemma redirect_leaves_switch_engaged :
  killed (world (@handle Demo.platform Demo.env_db (Demo.calm Demo.t0)
                   Demo.go_abc Demo.killed_world)) = Some true.
Proof.
  apply (@kill_switch_needs_secret Demo.platform Demo.env_db (Demo.calm Demo.t0)
           Demo.go_abc Demo.killed_world).
  reflexivity.
Defined.

Lemma export_of_three_clicks :
  result (@admin_export Demo.platform Demo.env_db (Demo.calm Demo.t0)
            Cases.get_export Demo.three_clicks) = Normal Handled
  ∧ world (@admin_export Demo.platform Demo.env_db (Demo.calm Demo.t0)
             Cases.get_export Demo.three_clicks) = Demo.three_clicks.
Proof.
  destruct (@export_recent_thousand Demo.platform Demo.env_db (Demo.calm Demo.t0)
              Cases.get_export Demo.three_clicks eq_refl) as (Hr & Hw & _).
  split; [exact Hr | exact Hw].
Defined.

Lemma export_of_a_misspelt_day :
  acts (@admin_export_day Demo.platform Demo.env_db (Demo.calm Demo.t0)
          Cases.get_day_misspelt Demo.three_clicks)
  = [Awaited day_text 0
       (Some ("invalid input syntax for type date: "
              +:+ Demo.dq +:+ "not-a-date" +:+ Demo.dq));
     Send 500 (Text ("export error: invalid input syntax for type date: "
                     +:+ Demo.dq +:+ "not-a-date" +:+ Demo.dq))]
  ∧ ∃ m, result (@admin_export_day Demo.platform Demo.env_db (Demo.calm Demo.t0)
                   Cases.get_day_twice Demo.three_clicks) = Throw m
       ∧ acts (@admin_export_day Demo.platform Demo.env_db (Demo.calm Demo.t0)
                 Cases.get_day_twice Demo.three_clicks) = [].
Proof.
  split.
  - destruct (@export_day_failures Demo.platform Demo.env_db (Demo.calm Demo.t0)
                Cases.get_day_misspelt Demo.three_clicks eq_refl) as (_ & _ & Hstr).
    destruct (Hstr (Some "not-a-date") eq_refl) as (_ & Hbad & _).
    exact (Hbad eq_refl eq_refl _ eq_refl).
  - destruct (@export_day_failures Demo.platform Demo.env_db (Demo.calm Demo.t0)
                Cases.get_day_twice Demo.three_clicks eq_refl) as (_ & Harr & _).
    apply (Harr (QArr [QStr "2024-01-15"; QStr "2024-01-16"]) eq_refl). done.
Defined.

(** The schema set-up when the store takes the table and rejects the first
    index. *)
Lemma schema_setup_stops_at_an_index :
  acts (startup Demo.env_db (Demo.calm Demo.t0) (Demo.outage Demo.t0)
          (Demo.calm Demo.t0) initial_world)
  = [Listen "3000"; ConsoleLog "Tiny FOB v2 running on port 3000";
     Awaited "CREATE TABLE IF NOT EXISTS clicks" 0 None;
     Awaited "CREATE INDEX IF NOT EXISTS clicks_ts_idx ON clicks(ts)" 3
       (Some "connect ECONNREFUSED");
     ConsoleError "DB init error:" "connect ECONNREFUSED"].
Proof.
  destruct (@startup_survives_store Demo.env_db (Demo.calm Demo.t0)
              (Demo.outage Demo.t0) (Demo.calm Demo.t0) initial_world)
    as (_ & _ & _ & Hp & _).
  exact (Hp eq_refl).
Defined.

(** A redirect to a string, and one whose [dest] is written twice: the
    array passes the validator as its elements joined by a comma, the
    redirect is called with the array, and the row holds the array
    literal that node-postgres makes of it. *)
Lemma redirect_is_logged_run :
  (acts (@go_handler Demo.platform Demo.env_db "abc" (Demo.calm Demo.t0)
           Demo.go_abc initial_world)
   = [Awaited insert_text 0 None; CounterInc "abc";
      Redirect 302 (QStr "https://example.com/ok?x=1#top")]
   ∧ clicks (world (@go_handler Demo.platform Demo.env_db "abc" (Demo.calm Demo.t0)
                      Demo.go_abc initial_world))
     = [{| id := 1; ts := Demo.t0; slug := "abc";
           dest := "https://example.com/ok?x=1#top";
           c_ip := "203.0.113.7"; ua := "" |}]
   ∧ clicksTotal (world (@go_handler Demo.platform Demo.env_db "abc"
                           (Demo.calm Demo.t0) Demo.go_abc initial_world)) !! "abc"
     = Some 1)
  ∧ (acts (@go_handler Demo.platform Demo.env_db "abc" (Demo.calm Demo.t0)
             Cases.go_two_dests initial_world)
     = [Awaited insert_text 0 None; CounterInc "abc";
        Redirect 302 (QArr [QStr "https://good.org/a"; QStr "https://good.org/b"])]
     ∧ dest <$> clicks (world (@go_handler Demo.platform Demo.env_db "abc"
                                 (Demo.calm Demo.t0) Cases.go_two_dests initial_world))
       = ["{" +:+ Demo.dq +:+ "https://good.org/a" +:+ Demo.dq +:+ ","
          +:+ Demo.dq +:+ "https://good.org/b" +:+ Demo.dq +:+ "}"]).
Proof.
  split.
  - destruct (@redirect_is_logged Demo.platform Demo.env_db "abc" (Demo.calm Demo.t0)
                Demo.go_abc initial_world eq_refl eq_refl)
      as (d & Hd & _ & Ha & (text & Hc & Hs & _) & _ & Hn & _).
    injection Hd as <-. rewrite (Hs _ eq_refl) in Hc.
    split; [exact Ha|]. split; [exact Hc | exact Hn].
  - destruct (@redirect_is_logged Demo.platform Demo.env_db "abc" (Demo.calm Demo.t0)
                Cases.go_two_dests initial_world eq_refl eq_refl)
      as (d & Hd & _ & Ha & (text & Hc & _ & Hv) & _).
    injection Hd as <-. rewrite Hv in Hc by done.
    split; [exact Ha|]. rewrite Hc. reflexivity.
Defined.

Lemma unsigned_kill_is_forbidden :
  @handle Demo.platform Demo.env_db (Demo.calm Demo.t0)
    Cases.post_kill_unsigned initial_world
  = {| acts := @helmet_calls Demo.platform ++ [Send 403 (Text "forbidden")];
       result := Normal Handled; world := initial_world |}.
Proof.
  apply (@kill_without_secret_is_forbidden Demo.platform Demo.env_db (Demo.calm Demo.t0)
           Cases.post_kill_unsigned initial_world); [reflexivity..|by left].
Defined.

Lemma kill_traffic_unkill :
  response_of <$>
    (@serve Demo.platform Demo.env_db
       [(Demo.calm Demo.t0, Demo.post_kill); (Demo.calm Demo.t0, Demo.go_abc);
        (Demo.calm Demo.t0, Cases.post_unkill); (Demo.calm Demo.t0, Demo.go_abc)]
       initial_world).1
  = [Some (Send 200 (Text "killed"));
     Some (Send 503 (Text "Service unavailable"));
     Some (Send 200 (Text "un-killed"));
     Some (Redirect 302 (QStr "https://example.com/ok?x=1#top"))]
  ∧ clicksTotal
      (@serve Demo.platform Demo.env_db
         [(Demo.calm Demo.t0, Demo.post_kill); (Demo.calm Demo.t0, Demo.go_abc);
          (Demo.calm Demo.t0, Cases.post_unkill); (Demo.calm Demo.t0, Demo.go_abc)]
         initial_world).2 !! "abc" = Some 1.
Proof.
  destruct (@kill_then_unkill_restores Demo.platform Demo.env_db
              (Demo.calm Demo.t0) (Demo.calm Demo.t0) (Demo.calm Demo.t0) (Demo.calm Demo.t0)
              Demo.post_kill Cases.post_unkill Demo.go_abc "abc" initial_world)
    as (d & Hd & _ & Hr & _ & _ & Hc & _); try reflexivity.
  - split; [by left|]. eexists. split; reflexivity.
  - injection Hd as <-. split; [exact Hr | exact Hc].
Defined.

Lemma secret_opens_both_variants :
  adminOK Demo.env_db Demo.post_kill = true
  ∧ V1.adminOK Demo.env_db Demo.post_kill = true.
Proof.
  destruct (admin_secret_set Demo.env_db Demo.post_kill "s3cret" eq_refl) as [Hset _].
  destruct Hset as [Hsame Hiff]; [done|].
  split; [|rewrite <- Hsame]; apply Hiff; reflexivity.
Defined.

Lemma allowlist_of_the_example :
  (∀ h, h ∈ DEST_HOST_ALLOWLIST Demo.env_db →
        h ≠ "" ∧ no_capital h ∧ no_space_around h ∧ has_char "," h = false)
  ∧ DEST_HOST_ALLOWLIST Demo.env_db = ["example.com"; "good.org"]
  ∧ DEST_HOST_ALLOWLIST Demo.env_plain = []
  ∧ DEST_HOST_ALLOWLIST Cases.env_blank = [].
Proof.
  destruct (allowlist_is_normalised Demo.env_db Demo.env_plain) as (Hn & _ & _).
  destruct (allowlist_is_normalised Demo.env_plain Demo.env_plain) as (_ & He & _).
  destruct (allowlist_is_normalised Cases.env_blank Demo.env_plain) as (_ & _ & Hb & _).
  split; [|split; [reflexivity | split; [exact (He eq_refl)|]]].
  - intros h Hh. destruct (Hn h Hh) as (? & _ & _ & ? & ? & ?). done.
  - apply Hb. intros c. cbn.
    intros [E|[E|E]%orb_true_iff]%orb_true_iff; [..|done];
      apply bool_decide_eq_true in E as <-; cbn; repeat constructor.
Defined.

Lemma first_hop_of_a_chain :
  client_ip Cases.go_forwarded = "198.51.100.4"
  ∧ client_ip Cases.go_proxied = "198.51.100.4".
Proof.
  destruct (client_ip_is_first_hop Cases.go_forwarded) as (_ & _ & _ & Hfirst & _).
  destruct (client_ip_is_first_hop Cases.go_proxied) as (_ & _ & _ & _ & Hone & _).
  split.
  - exact (proj1 (Hfirst " 198.51.100.4 " " 10.0.0.1" eq_refl eq_refl)).
  - apply (Hone "198.51.100.4"); [reflexivity | done | reflexivity].
Defined.

Lemma first_variant_status_in_an_outage :
  @V1.status_handler Demo.platform (Demo.outage Demo.t0) Demo.get_status Demo.three_clicks
  = {| acts := [Awaited "SELECT COUNT(*)::int AS c FROM clicks" 3
                  (Some "connect ECONNREFUSED")];
       result := Throw "connect ECONNREFUSED"; world := Demo.three_clicks |}.
Proof.
  destruct (@first_variant_lets_store_errors_out Demo.platform Demo.env_db
              (Demo.outage Demo.t0) Demo.get_status Demo.three_clicks) as [Hout _].
  exact (proj1 (Hout "connect ECONNREFUSED" eq_refl)).
Defined.
